(** * Non-heap BSTR: layout, construction and length accessors

    A shallow embedding of the macros of [non_heap_bstr.h].  The header
    builds, per requested capacity, a struct made of a length prefix and a
    union of a wide character array and a byte array; the address of the
    array is handed out as a [BSTR], and four macros read or write the
    32-bit length stored in the four bytes below that address.

    Integer expressions are given as [Z] with the wrap-around of their C
    type written out; the memory is a map from byte addresses to bytes in
    little-endian order (every Windows target is little-endian). *)

From Stdlib Require Import ZArith List Lia Bool String.
Import ListNotations.
Local Open Scope Z_scope.

(** ** Targets and integer types *)

(** [#if defined(_WIN64)] selects one of two layouts. *)
Inductive target : Set := Win32 | Win64.

(** [sizeof(__int3264)]: the native word, 4 or 8 bytes. *)
Definition sizeof_int3264 (t : target) : Z :=
  match t with Win32 => 4 | Win64 => 8 end.

Definition sizeof_WCHAR : Z := 2.
Definition sizeof_UINT : Z := 4.

(** [size_t] has the width of the native word; [sizeof] yields a [size_t],
    so every expression of the header that mentions [sizeof] is computed in
    [size_t], modulo [SIZE_MOD]. *)
Definition SIZE_MOD (t : target) : Z := 2 ^ (8 * sizeof_int3264 t).
Definition UINT_MOD : Z := 2 ^ 32.

Definition to_size (t : target) (z : Z) : Z := z mod SIZE_MOD t.
Definition to_UINT (z : Z) : Z := z mod UINT_MOD.

Definition size_add (t : target) (a b : Z) : Z := to_size t (a + b).
Definition size_sub (t : target) (a b : Z) : Z := to_size t (a - b).
Definition size_mul (t : target) (a b : Z) : Z := to_size t (a * b).
(** [~x] on a [size_t]. *)
Definition size_not (t : target) (a : Z) : Z := to_size t (Z.lnot a).

(** ** C object types and their layout *)

#[warnings="-register-all"]
Inductive ctype : Type :=
| T_char                       (* char *)
| T_WCHAR                      (* WCHAR, a 16-bit code unit *)
| T_int32                      (* __int32 *)
| T_UINT                       (* UINT *)
| T_int64                      (* __int64 *)
| T_array (elt : ctype) (count : Z)
| T_struct (members : list (string * ctype))
| T_union (members : list (string * ctype)).

(** A member whose name is empty is an anonymous struct or union (C11
    6.7.2.1p13): its members are members of the enclosing aggregate. *)
Definition anonymous : string := EmptyString.

Definition align_up (off a : Z) : Z := ((off + a - 1) / a) * a.

(** Scalars are naturally aligned; an aggregate takes the strictest
    alignment of its members. *)
Fixpoint alignof (ty : ctype) : Z :=
  match ty with
  | T_char => 1
  | T_WCHAR => 2
  | T_int32 => 4
  | T_UINT => 4
  | T_int64 => 8
  | T_array elt _ => alignof elt
  | T_struct ms | T_union ms =>
      (fix members_align (l : list (string * ctype)) : Z :=
         match l with
         | [] => 1
         | (_, m) :: r => Z.max (alignof m) (members_align r)
         end) ms
  end.

Fixpoint sizeof (ty : ctype) : Z :=
  match ty with
  | T_char => 1
  | T_WCHAR => 2
  | T_int32 => 4
  | T_UINT => 4
  | T_int64 => 8
  | T_array elt count => count * sizeof elt
  | T_struct ms =>
      align_up
        ((fix struct_end (l : list (string * ctype)) (off : Z) : Z :=
            match l with
            | [] => off
            | (_, m) :: r => struct_end r (align_up off (alignof m) + sizeof m)
            end) ms 0)
        (alignof ty)
  | T_union ms =>
      align_up
        ((fix union_end (l : list (string * ctype)) : Z :=
            match l with
            | [] => 0
            | (_, m) :: r => Z.max (sizeof m) (union_end r)
            end) ms)
        (alignof ty)
  end.

(** [member_offset ty name] is the offset and type of the member [name] of
    the aggregate [ty], looked up through anonymous members. *)
Fixpoint member_offset (ty : ctype) (name : string) : option (Z * ctype) :=
  match ty with
  | T_struct ms =>
      (fix in_struct (l : list (string * ctype)) (off : Z) : option (Z * ctype) :=
         match l with
         | [] => None
         | (n, m) :: r =>
             let o := align_up off (alignof m) in
             if String.eqb n name then Some (o, m)
             else
               match (if String.eqb n anonymous then member_offset m name else None) with
               | Some (o', m') => Some (o + o', m')
               | None => in_struct r (o + sizeof m)
               end
         end) ms 0
  | T_union ms =>
      (fix in_union (l : list (string * ctype)) : option (Z * ctype) :=
         match l with
         | [] => None
         | (n, m) :: r =>
             if String.eqb n name then Some (0, m)
             else
               match (if String.eqb n anonymous then member_offset m name else None) with
               | Some found => Some found
               | None => in_union r
               end
         end) ms
  | _ => None
  end.

(** [path_offset ty p]: the offset of [ty.p1.p2...]. *)
Fixpoint path_offset (ty : ctype) (p : list string) : option (Z * ctype) :=
  match p with
  | [] => Some (0, ty)
  | n :: q =>
      match member_offset ty n with
      | Some (o, m) =>
          match path_offset m q with
          | Some (o', m') => Some (o + o', m')
          | None => None
          end
      | None => None
      end
  end.

(** An array declarator needs a size greater than zero (C11 6.7.6.2p1). *)
Fixpoint positive_arrays (ty : ctype) : bool :=
  match ty with
  | T_array elt count => (0 <? count) && positive_arrays elt
  | T_struct ms | T_union ms =>
      (fix all_members (l : list (string * ctype)) : bool :=
         match l with
         | [] => true
         | (_, m) :: r => positive_arrays m && all_members r
         end) ms
  | _ => true
  end.

(** A type can be declared on target [t] when its arrays have a positive
    size and [sizeof] of it is a [size_t]. *)
Definition declarable (t : target) (ty : ctype) : bool :=
  positive_arrays ty && (sizeof ty <? SIZE_MOD t).

(** ** The container type *)

(** [INTERNAL_BSTR_CONTAINER_LENGTH_PREFIX__]: the first member of the
    container.  On a 64-bit target an anonymous union of the struct
    [prefix] with an [__int64]; on a 32-bit target the struct [prefix]. *)
Definition INTERNAL_BSTR_CONTAINER_LENGTH_PREFIX__ (t : target) : string * ctype :=
  match t with
  | Win64 =>
      (anonymous,
       T_union
         [ ("prefix"%string,
            T_struct [ ("margin_dummy"%string, T_int32); ("length"%string, T_UINT) ]);
           ("alignment_dummy"%string, T_int64) ])
  | Win32 =>
      ("prefix"%string, T_struct [ ("length"%string, T_UINT) ])
  end.

(** The two array declarators of [INTERNAL_BSTR_CONTAINER__]:
    [((bytecount_) / sizeof(WCHAR) + sizeof(__int3264) / sizeof(WCHAR))
       & ~(sizeof(__int3264) / sizeof(WCHAR) - 1)]
    and [((bytecount_) + sizeof(__int3264)) & ~(sizeof(__int3264) - 1)]. *)
Definition bstr_count (t : target) (bytecount_ : Z) : Z :=
  Z.land
    (size_add t (bytecount_ / sizeof_WCHAR) (sizeof_int3264 t / sizeof_WCHAR))
    (size_not t (sizeof_int3264 t / sizeof_WCHAR - 1)).

Definition bytestr_count (t : target) (bytecount_ : Z) : Z :=
  Z.land
    (size_add t bytecount_ (sizeof_int3264 t))
    (size_not t (sizeof_int3264 t - 1)).

Definition bstr_array (t : target) (bytecount_ : Z) : ctype :=
  T_array T_WCHAR (bstr_count t bytecount_).

Definition bytestr_array (t : target) (bytecount_ : Z) : ctype :=
  T_array T_char (bytestr_count t bytecount_).

(** The anonymous union of the two buffers. *)
Definition buffer_union (t : target) (bytecount_ : Z) : ctype :=
  T_union [ ("bstr"%string, bstr_array t bytecount_);
            ("bytestr"%string, bytestr_array t bytecount_) ].

(** [struct tag_##varname_ { ...PREFIX__; union { bstr; bytestr; }; }] *)
Definition INTERNAL_BSTR_CONTAINER__ (t : target) (bytecount_ : Z) : ctype :=
  T_struct [ INTERNAL_BSTR_CONTAINER_LENGTH_PREFIX__ t;
             (anonymous, buffer_union t bytecount_) ].

(** The bytes that can be reached through the handle. *)
Definition capacity (t : target) (bytecount_ : Z) : Z :=
  sizeof (buffer_union t bytecount_).

(** The rounding as the specification writes it, [(n + w) & ~(w - 1)], on
    unbounded integers. *)
Definition round_up (n w : Z) : Z := Z.land (n + w) (Z.lnot (w - 1)).

(** A value of type [size_t]. *)
Definition is_size (t : target) (z : Z) : bool := (0 <=? z) && (z <? SIZE_MOD t).

(** A value of type [UINT]. *)
Definition is_UINT (z : Z) : bool := (0 <=? z) && (z <? UINT_MOD).

(** ** Memory *)

Definition addr : Type := Z.

(** A byte of memory holds a value in [0, 256), or is indeterminate
    ([None]) as the content of an automatic object without initializer. *)
Definition memory : Type := addr -> option Z.

Definition write_byte (m : memory) (a : addr) (b : Z) : memory :=
  fun x => if x =? a then Some b else m x.

Fixpoint store_bytes (m : memory) (a : addr) (bs : list Z) : memory :=
  match bs with
  | [] => m
  | b :: r => store_bytes (write_byte m a b) (a + 1) r
  end.

Fixpoint load_bytes (m : memory) (a : addr) (n : nat) : option (list Z) :=
  match n with
  | O => Some []
  | S k =>
      match m a, load_bytes m (a + 1) k with
      | Some b, Some r => Some (b :: r)
      | _, _ => None
      end
  end.

(** Little-endian representation on [n] bytes. *)
Fixpoint le_split (n : nat) (v : Z) : list Z :=
  match n with
  | O => []
  | S k => v mod 256 :: le_split k (v / 256)
  end.

Fixpoint le_combine (bs : list Z) : Z :=
  match bs with
  | [] => 0
  | b :: r => b + 256 * le_combine r
  end.

Definition load_UINT (m : memory) (a : addr) : option Z :=
  option_map le_combine (load_bytes m a (Z.to_nat sizeof_UINT)).

Definition store_UINT (m : memory) (a : addr) (v : Z) : memory :=
  store_bytes m a (le_split (Z.to_nat sizeof_UINT) v).

(** [fill m a n c]: the [n] bytes from [a] all hold [c]. *)
Definition fill (m : memory) (a : addr) (n : Z) (c : option Z) : memory :=
  fun x => if (a <=? x) && (x <? a + n) then c else m x.

(** Consecutive array elements of [eltsize] bytes each. *)
Fixpoint store_elems (eltsize : Z) (m : memory) (a : addr) (elems : list Z) : memory :=
  match elems with
  | [] => m
  | e :: r =>
      store_elems eltsize (store_bytes m a (le_split (Z.to_nat eltsize) e)) (a + eltsize) r
  end.

(** ** Length accessors

    A [BSTR] is the address of the first character.  [((UINT * )(void * )(bstr_))[-1]]
    is the [UINT] at [bstr_ - sizeof(UINT)]. *)

Definition length_field (bstr_ : addr) : addr := bstr_ + (-1) * sizeof_UINT.

(** [((UINT)(((UINT * )(void * )(bstr_))[-1] / sizeof(WCHAR)))] *)
Definition GET_BSTR_LEN (m : memory) (bstr_ : addr) : option Z :=
  option_map (fun v => to_UINT (v / sizeof_WCHAR)) (load_UINT m (length_field bstr_)).

(** [((UINT * )(void * )(bstr_))[-1] = (UINT)((length_) * sizeof(WCHAR))] *)
Definition SET_BSTR_LEN (t : target) (m : memory) (bstr_ : addr) (length_ : Z) : memory :=
  store_UINT m (length_field bstr_) (to_UINT (size_mul t length_ sizeof_WCHAR)).

(** [(((UINT * )(void * )(bstr_))[-1])] *)
Definition GET_BSTR_BYTE_LEN (m : memory) (bstr_ : addr) : option Z :=
  load_UINT m (length_field bstr_).

(** [((UINT * )(void * )(bstr_))[-1] = (UINT)(length_)] *)
Definition SET_BSTR_BYTE_LEN (m : memory) (bstr_ : addr) (length_ : Z) : memory :=
  store_UINT m (length_field bstr_) (to_UINT length_).

(** ** Constructors

    The macros take their counts and lengths as they come.  Here a count or
    a length is a value of [size_t], which is what [ARRAYSIZE] and [sizeof]
    give in [main.c]; a constant of type [int] that is not negative converts
    to the same value when it meets a [sizeof] in the expansion. *)

(** The initializer of the two initializing macros:
    [{ .prefix = { .length = len }, .member = elems }]. *)
Record designated_init : Type := {
  init_length : Z;
  init_member : string;
  init_elems : list Z
}.

(** What a container macro expands to: a type and, for the initializing
    macros, an initializer. *)
Record container : Type := {
  c_type : ctype;
  c_init : option designated_init
}.

(** [INTERNAL_BSTR_CONTAINER__(varname_, (bufcount_) * sizeof(WCHAR))] *)
Definition BSTR_CONTAINER (t : target) (bufcount_ : Z) : container :=
  {| c_type := INTERNAL_BSTR_CONTAINER__ t (size_mul t bufcount_ sizeof_WCHAR);
     c_init := None |}.

(** [BSTR_CONTAINER(varname_, bufcount_) =
      { .prefix = { .length = ((bufcount_) - 1) * sizeof(WCHAR) }, .bstr = __VA_ARGS__ }] *)
Definition INITIALIZED_BSTR_CONTAINER (t : target) (bufcount_ : Z) (va_args : list Z)
  : container :=
  {| c_type := c_type (BSTR_CONTAINER t bufcount_);
     c_init := Some {| init_length := size_mul t (size_sub t bufcount_ 1) sizeof_WCHAR;
                       init_member := "bstr";
                       init_elems := va_args |} |}.

(** [INTERNAL_BSTR_CONTAINER__(varname_, bufsize_)] *)
Definition BSTR_BYTE_CONTAINER (t : target) (bufsize_ : Z) : container :=
  {| c_type := INTERNAL_BSTR_CONTAINER__ t bufsize_;
     c_init := None |}.

(** [BSTR_BYTE_CONTAINER(varname_, bufsize_) =
      { .prefix = { .length = (bufsize_) - 1 }, .bytestr = __VA_ARGS__ }] *)
Definition INITIALIZED_BSTR_BYTE_CONTAINER (t : target) (bufsize_ : Z) (va_args : list Z)
  : container :=
  {| c_type := c_type (BSTR_BYTE_CONTAINER t bufsize_);
     c_init := Some {| init_length := size_sub t bufsize_ 1;
                       init_member := "bytestr";
                       init_elems := va_args |} |}.

Inductive storage : Set := Static | Automatic.

(** The initializer applied to the object at [base].  Members without an
    initializer of their own are zeroed (C11 6.7.9p19 and p21), the length is
    converted to [UINT], and the elements given go to the front of the
    array.  More elements than the array has is a constraint violation. *)
Definition initialize (ty : ctype) (i : designated_init) (base : addr) (m : memory)
  : option memory :=
  match path_offset ty ["prefix"%string; "length"%string],
        member_offset ty (init_member i) with
  | Some (ol, T_UINT), Some (ob, T_array elt count) =>
      if Z.of_nat (List.length (init_elems i)) <=? count then
        let zeroed := fill m base (sizeof ty) (Some 0) in
        let with_length := store_UINT zeroed (base + ol) (to_UINT (init_length i)) in
        Some (store_elems (sizeof elt) with_length (base + ob) (init_elems i))
      else None
  | _, _ => None
  end.

(** The content of a new object at [base].  Without initializer, a static
    object is zero-initialized (C11 6.7.9p10) and an automatic object is
    indeterminate. *)
Definition define_object (sd : storage) (c : container) (base : addr) (m : memory)
  : option memory :=
  match c_init c with
  | Some i => initialize (c_type c) i base m
  | None =>
      Some (fill m base (sizeof (c_type c))
              (match sd with Static => Some 0 | Automatic => None end))
  end.

(** The address of [container.name]. *)
Definition member_address (c : container) (base : addr) (name : string) : option addr :=
  option_map (fun om => base + fst om) (member_offset (c_type c) name).

(** ** Scoped declaration wrappers *)

(** The variables of the caller's scope that hold a [BSTR]; [None] is a
    variable that is not declared or not yet assigned. *)
Record state : Type := {
  mem : memory;
  vars : string -> option addr
}.

(** [BSTR varname_;] *)
Definition declare_BSTR (varname_ : string) (st : state) : state :=
  {| mem := mem st;
     vars := fun x => if String.eqb x varname_ then None else vars st x |}.

(** [varname_ = value;] *)
Definition assign_BSTR (varname_ : string) (value : option addr) (st : state) : state :=
  {| mem := mem st;
     vars := fun x => if String.eqb x varname_ then value else vars st x |}.

(** Control passing over the declaration of the object at [base].  A static
    object is initialized once, before program startup (C11 6.2.4p3): passing
    its declaration does nothing.  An automatic object is created anew, and
    its initializer evaluated, each time the declaration is reached
    (6.2.4p6 and 6.8p3). *)
Definition exec_declaration (sd : storage) (c : container) (base : addr) (st : state)
  : option state :=
  match sd with
  | Static => Some st
  | Automatic =>
      option_map (fun m' => {| mem := m'; vars := vars st |})
        (define_object Automatic c base (mem st))
  end.

(** Program startup gives the static object at [base] its initial content. *)
Definition startup (c : container) (base : addr) (m : memory) : option memory :=
  define_object Static c base m.

(** [do { body } while (0)]: the body runs once. *)
Definition do_while_0 (body : state -> option state) (st : state) : option state :=
  body st.

Notation "x <- c1 ;; c2" :=
  (match c1 with Some x => c2 | None => None end)
    (at level 61, c1 at next level, right associativity).

(** The four wrappers.  Each declares the handle in the caller's scope, and
    in the body of the loop declares its static container and assigns the
    address of the member [bstr] to the handle.  [site] is the address the
    static container of this expansion has for the whole run of the
    program. *)

(** [BSTR varname_;
     do { static BSTR_CONTAINER(bstr_container_##varname_, bufcount_);
          varname_ = bstr_container_##varname_.bstr; } while (0)] *)
Definition MAKE_BSTR (t : target) (varname_ : string) (bufcount_ : Z)
  (site : addr) (st : state) : option state :=
  let bstr_container := BSTR_CONTAINER t bufcount_ in
  do_while_0
    (fun st1 =>
       st2 <- exec_declaration Static bstr_container site st1 ;;
       Some (assign_BSTR varname_ (member_address bstr_container site "bstr") st2))
    (declare_BSTR varname_ st).

(** [BSTR varname_;
     do { static INITIALIZED_BSTR_CONTAINER(bstr_container_##varname_, bufcount_, __VA_ARGS__);
          varname_ = bstr_container_##varname_.bstr; } while (0)] *)
Definition MAKE_INITIALIZED_BSTR (t : target) (varname_ : string) (bufcount_ : Z)
  (va_args : list Z) (site : addr) (st : state) : option state :=
  let bstr_container := INITIALIZED_BSTR_CONTAINER t bufcount_ va_args in
  do_while_0
    (fun st1 =>
       st2 <- exec_declaration Static bstr_container site st1 ;;
       Some (assign_BSTR varname_ (member_address bstr_container site "bstr") st2))
    (declare_BSTR varname_ st).

(** [BSTR varname_;
     do { static BSTR_BYTE_CONTAINER(bstr_container_##varname_, bufsize_);
          varname_ = bstr_container_##varname_.bstr; } while (0)] *)
Definition MAKE_BSTR_BYTE (t : target) (varname_ : string) (bufsize_ : Z)
  (site : addr) (st : state) : option state :=
  let bstr_container := BSTR_BYTE_CONTAINER t bufsize_ in
  do_while_0
    (fun st1 =>
       st2 <- exec_declaration Static bstr_container site st1 ;;
       Some (assign_BSTR varname_ (member_address bstr_container site "bstr") st2))
    (declare_BSTR varname_ st).

(** [BSTR varname_;
     do { static INITIALIZED_BSTR_BYTE_CONTAINER(bstr_container_##varname_, bufsize_, __VA_ARGS__);
          varname_ = bstr_container_##varname_.bstr; } while (0)] *)
Definition MAKE_INITIALIZED_BSTR_BYTE (t : target) (varname_ : string) (bufsize_ : Z)
  (va_args : list Z) (site : addr) (st : state) : option state :=
  let bstr_container := INITIALIZED_BSTR_BYTE_CONTAINER t bufsize_ va_args in
  do_while_0
    (fun st1 =>
       st2 <- exec_declaration Static bstr_container site st1 ;;
       Some (assign_BSTR varname_ (member_address bstr_container site "bstr") st2))
    (declare_BSTR varname_ st).

(** What the four have in common, for the proofs. *)
Definition scoped_wrapper (c : container) (varname_ : string) (site : addr) (st : state)
  : option state :=
  do_while_0
    (fun st1 =>
       st2 <- exec_declaration Static c site st1 ;;
       Some (assign_BSTR varname_ (member_address c site "bstr") st2))
    (declare_BSTR varname_ st).

(** The elements of the initializer do not exceed the array they go to. *)
Definition initializer_fits (c : container) : bool :=
  match c_init c with
  | None => true
  | Some i =>
      match member_offset (c_type c) (init_member i) with
      | Some (_, T_array _ count) => Z.of_nat (List.length (init_elems i)) <=? count
      | _ => false
      end
  end.

(** Wide strings and byte strings: the two families of macros. *)
Inductive mode : Set := Wide | Byte.

Definition char_size (k : mode) : Z :=
  match k with Wide => sizeof_WCHAR | Byte => 1 end.

(** The byte count that reaches [INTERNAL_BSTR_CONTAINER__]. *)
Definition requested_bytes (t : target) (k : mode) (count_ : Z) : Z :=
  match k with Wide => size_mul t count_ sizeof_WCHAR | Byte => count_ end.

Definition uninitialized_container (t : target) (k : mode) (count_ : Z) : container :=
  match k with
  | Wide => BSTR_CONTAINER t count_
  | Byte => BSTR_BYTE_CONTAINER t count_
  end.

Definition initialized_container (t : target) (k : mode) (count_ : Z) (va_args : list Z)
  : container :=
  match k with
  | Wide => INITIALIZED_BSTR_CONTAINER t count_ va_args
  | Byte => INITIALIZED_BSTR_BYTE_CONTAINER t count_ va_args
  end.

Definition get_length (k : mode) (m : memory) (bstr_ : addr) : option Z :=
  match k with
  | Wide => GET_BSTR_LEN m bstr_
  | Byte => GET_BSTR_BYTE_LEN m bstr_
  end.

Definition set_length (t : target) (k : mode) (m : memory) (bstr_ : addr) (length_ : Z)
  : memory :=
  match k with
  | Wide => SET_BSTR_LEN t m bstr_ length_
  | Byte => SET_BSTR_BYTE_LEN m bstr_ length_
  end.



(** The handle of the container at [base], for use in statements. *)
Definition handle (t : target) (base : addr) : addr := base + sizeof_int3264 t.

(** An empty memory and the digits of ["1234567890"], for examples. *)
Definition no_memory : memory := fun _ => None.
Definition no_vars : string -> option addr := fun _ => None.
Definition digits : list Z := [49; 50; 51; 52; 53; 54; 55; 56; 57; 48].

(** The length the initializing macros store, after its conversion to
    [UINT]. *)
Definition stored_length (t : target) (k : mode) (count_ : Z) : Z :=
  to_UINT (match k with
           | Wide => size_mul t (size_sub t count_ 1) sizeof_WCHAR
           | Byte => size_sub t count_ 1
           end).

(** A wrapper run twice at one site, with any code of the caller in
    between: both runs leave the memory alone and yield the same handle, so
    the second run finds what the caller left. *)
Definition reuses_static_container
  (wrapper : addr -> state -> option state) (varname_ : string) : Prop :=
  forall (site : addr) (st : state) (caller : state -> state),
  exists st1 st2 h,
    wrapper site st = Some st1
    /\ wrapper site (caller st1) = Some st2
    /\ vars st1 varname_ = Some h
    /\ vars st2 varname_ = Some h
    /\ mem st1 = mem st
    /\ mem st2 = mem (caller st1)
    /\ GET_BSTR_LEN (mem st2) h = GET_BSTR_LEN (mem (caller st1)) h
    /\ GET_BSTR_BYTE_LEN (mem st2) h = GET_BSTR_BYTE_LEN (mem (caller st1)) h.

(** ** Characters behind the handle *)

(** [((WCHAR * )bstr_)[i]] in wide mode and [((char * )bstr_)[i]] in byte
    mode, read and written. *)
Definition load_char (k : mode) (m : memory) (bstr_ : addr) (i : Z) : option Z :=
  option_map le_combine
    (load_bytes m (bstr_ + char_size k * i) (Z.to_nat (char_size k))).

Definition store_char (k : mode) (m : memory) (bstr_ : addr) (i : Z) (v : Z) : memory :=
  store_bytes m (bstr_ + char_size k * i) (le_split (Z.to_nat (char_size k)) v).

(** The values a character of [k] can hold. *)
Definition CHAR_MOD (k : mode) : Z := 256 ^ char_size k.

(** A determinate byte. *)
Definition is_byte (c : option Z) : Prop := exists b, c = Some b /\ 0 <= b < 256.

(** The [n] bytes from [a] are all determinate. *)
Definition byte_valued (m : memory) (a : addr) (n : Z) : Prop :=
  forall x, a <= x < a + n -> is_byte (m x).

(** The bytes of the object of type [ty] at [base]. *)
Definition inside (ty : ctype) (base : addr) (x : addr) : Prop :=
  base <= x < base + sizeof ty.

(** * Properties *)

(** ** Arithmetic of [size_t] and of the rounding masks *)

Lemma SIZE_MOD_pos (t : target) : 0 < SIZE_MOD t.
Proof. destruct t; reflexivity. Qed.

Lemma SIZE_MOD_UINT (t : target) : exists k, 0 < k /\ SIZE_MOD t = k * UINT_MOD.
Proof.
  destruct t; [exists 1 | exists (2 ^ 32)]; split; reflexivity.
Qed.

Lemma is_size_spec (t : target) (z : Z) : is_size t z = true <-> 0 <= z < SIZE_MOD t.
Proof. unfold is_size. rewrite andb_true_iff, Z.leb_le, Z.ltb_lt. tauto. Qed.

Lemma is_UINT_spec (z : Z) : is_UINT z = true <-> 0 <= z < UINT_MOD.
Proof. unfold is_UINT. rewrite andb_true_iff, Z.leb_le, Z.ltb_lt. tauto. Qed.

(** Case analysis on the target, with the sizes as numerals. *)
Ltac on_target t :=
  destruct t;
  unfold SIZE_MOD, UINT_MOD, sizeof_int3264, sizeof_WCHAR, sizeof_UINT in *;
  change (2 ^ (8 * 4)) with 4294967296 in *;
  change (2 ^ (8 * 8)) with 18446744073709551616 in *;
  change (2 ^ 32) with 4294967296 in *;
  change (4 / 2) with 2 in *;
  change (8 / 2) with 4 in *.

(** Converting to [size_t] and then to [UINT] keeps the low 32 bits. *)
Lemma to_UINT_to_size (t : target) (z : Z) : to_UINT (to_size t z) = to_UINT z.
Proof.
  unfold to_UINT, to_size. destruct (SIZE_MOD_UINT t) as (k & Hk & ->).
  apply Z.mod_mod_divide. exists k. reflexivity.
Qed.

Lemma to_UINT_small (z : Z) : 0 <= z < UINT_MOD -> to_UINT z = z.
Proof. apply Z.mod_small. Qed.

Lemma to_size_small (t : target) (z : Z) : 0 <= z < SIZE_MOD t -> to_size t z = z.
Proof. apply Z.mod_small. Qed.

(** Masking with [~(2^k - 1)] clears the low [k] bits. *)
Lemma land_lnot_ones (x k : Z) :
  0 <= k -> Z.land x (Z.lnot (2 ^ k - 1)) = 2 ^ k * (x / 2 ^ k).
Proof.
  intros Hk.
  replace (2 ^ k - 1) with (Z.ones k) by (rewrite Z.ones_equiv; lia).
  rewrite <- Z.ldiff_land, Z.ldiff_ones_r by assumption.
  rewrite Z.shiftl_mul_pow2, Z.shiftr_div_pow2 by assumption. lia.
Qed.

(** The same mask computed in [size_t], on a [size_t] operand. *)
Lemma land_size_not (t : target) (x k : Z) :
  0 <= x < SIZE_MOD t -> 0 <= k ->
  Z.land x (size_not t (2 ^ k - 1)) = 2 ^ k * (x / 2 ^ k).
Proof.
  intros Hx Hk. unfold size_not, to_size, SIZE_MOD in *.
  assert (Hb : 0 <= 8 * sizeof_int3264 t) by (destruct t; simpl; lia).
  rewrite <- Z.land_ones by assumption.
  rewrite (Z.land_comm (Z.lnot _)), Z.land_assoc.
  rewrite (Z.land_ones x) by assumption.
  rewrite Z.mod_small by assumption.
  apply land_lnot_ones; assumption.
Qed.

(** ** Layout of the container *)

Arguments bstr_count : simpl never.
Arguments bytestr_count : simpl never.

(** Closed forms of the two array declarators. *)
Lemma bytestr_count_eq (t : target) (n : Z) :
  bytestr_count t n
  = sizeof_int3264 t * (to_size t (n + sizeof_int3264 t) / sizeof_int3264 t).
Proof.
  unfold bytestr_count, size_add.
  assert (Hr : 0 <= to_size t (n + sizeof_int3264 t) < SIZE_MOD t)
    by (apply Z.mod_pos_bound, SIZE_MOD_pos).
  destruct t.
  - apply (land_size_not Win32 _ 2); [exact Hr | lia].
  - apply (land_size_not Win64 _ 3); [exact Hr | lia].
Qed.

Lemma bstr_count_eq (t : target) (n : Z) :
  is_size t n = true ->
  bstr_count t n
  = sizeof_int3264 t / sizeof_WCHAR
    * ((n / sizeof_WCHAR + sizeof_int3264 t / sizeof_WCHAR)
       / (sizeof_int3264 t / sizeof_WCHAR)).
Proof.
  intros Hn. apply is_size_spec in Hn.
  unfold bstr_count, size_add.
  assert (Hs : 0 <= n / sizeof_WCHAR + sizeof_int3264 t / sizeof_WCHAR < SIZE_MOD t).
  { on_target t; Z.div_mod_to_equations; lia. }
  rewrite (to_size_small t _ Hs).
  destruct t.
  - apply (land_size_not Win32 _ 1); [exact Hs | lia].
  - apply (land_size_not Win64 _ 2); [exact Hs | lia].
Qed.

(** The rounding of the specification, in closed form. *)
Lemma round_up_eq (t : target) (n : Z) :
  round_up n (sizeof_int3264 t)
  = sizeof_int3264 t * ((n + sizeof_int3264 t) / sizeof_int3264 t).
Proof.
  unfold round_up. destruct t.
  - apply (land_lnot_ones _ 2). lia.
  - apply (land_lnot_ones _ 3). lia.
Qed.

Lemma positive_arrays_container (t : target) (n : Z) :
  positive_arrays (INTERNAL_BSTR_CONTAINER__ t n)
  = (0 <? bstr_count t n) && (0 <? bytestr_count t n).
Proof.
  destruct t; cbn [positive_arrays INTERNAL_BSTR_CONTAINER__ buffer_union bstr_array
                   bytestr_array INTERNAL_BSTR_CONTAINER_LENGTH_PREFIX__ andb];
    rewrite ?andb_true_r; reflexivity.
Qed.

(** A container that can be declared was sized without wrap-around. *)
Lemma declarable_no_wrap (t : target) (n : Z) :
  is_size t n = true ->
  declarable t (INTERNAL_BSTR_CONTAINER__ t n) = true ->
  n + sizeof_int3264 t < SIZE_MOD t.
Proof.
  intros Hn Hd. apply is_size_spec in Hn.
  unfold declarable in Hd. apply andb_true_iff in Hd. destruct Hd as [Hp _].
  rewrite positive_arrays_container in Hp.
  apply andb_true_iff in Hp. destruct Hp as [_ Hp]. apply Z.ltb_lt in Hp.
  rewrite bytestr_count_eq in Hp.
  destruct (Z_lt_ge_dec (n + sizeof_int3264 t) (SIZE_MOD t)) as [Hlt | Hge]; [exact Hlt |].
  exfalso.
  assert (Hw : to_size t (n + sizeof_int3264 t) = n + sizeof_int3264 t - SIZE_MOD t).
  { unfold to_size. symmetry. apply (Z.mod_unique _ _ 1); on_target t; lia. }
  rewrite Hw in Hp.
  assert (Hz : (n + sizeof_int3264 t - SIZE_MOD t) / sizeof_int3264 t = 0)
    by (apply Z.div_small; on_target t; lia).
  rewrite Hz in Hp. lia.
Qed.

Lemma bytestr_count_no_wrap (t : target) (n : Z) :
  is_size t n = true -> n + sizeof_int3264 t < SIZE_MOD t ->
  bytestr_count t n = round_up n (sizeof_int3264 t).
Proof.
  intros Hn Hw. apply is_size_spec in Hn.
  rewrite bytestr_count_eq, round_up_eq, to_size_small; [reflexivity |].
  on_target t; lia.
Qed.

(** The wide array has half as many elements: the division by
    [sizeof(WCHAR)] loses the low bit of an odd byte count, and the mask
    would have cleared that bit anyway. *)
Lemma bstr_count_no_wrap (t : target) (n : Z) :
  is_size t n = true ->
  bstr_count t n * sizeof_WCHAR = round_up n (sizeof_int3264 t).
Proof.
  intros Hn. rewrite bstr_count_eq, round_up_eq by exact Hn.
  apply is_size_spec in Hn.
  on_target t; Z.div_mod_to_equations; lia.
Qed.

Lemma round_up_bounds (t : target) (n : Z) :
  n < round_up n (sizeof_int3264 t) <= n + sizeof_int3264 t
  /\ round_up n (sizeof_int3264 t) mod sizeof_int3264 t = 0.
Proof.
  rewrite round_up_eq. on_target t; Z.div_mod_to_equations; lia.
Qed.

Lemma sizeof_bstr_array (t : target) (n : Z) :
  sizeof (bstr_array t n) = bstr_count t n * sizeof_WCHAR.
Proof. reflexivity. Qed.

Lemma sizeof_bytestr_array (t : target) (n : Z) :
  sizeof (bytestr_array t n) = bytestr_count t n.
Proof. unfold bytestr_array. cbn [sizeof]. lia. Qed.

Lemma capacity_unfold (t : target) (n : Z) :
  capacity t n
  = align_up (Z.max (sizeof (bstr_array t n)) (Z.max (sizeof (bytestr_array t n)) 0)) 2.
Proof. reflexivity. Qed.

Lemma capacity_eq (t : target) (n : Z) :
  is_size t n = true -> n + sizeof_int3264 t < SIZE_MOD t ->
  capacity t n = round_up n (sizeof_int3264 t).
Proof.
  intros Hn Hw.
  rewrite capacity_unfold, sizeof_bstr_array, sizeof_bytestr_array.
  rewrite (bstr_count_no_wrap t n Hn), (bytestr_count_no_wrap t n Hn Hw).
  pose proof (round_up_bounds t n) as [Hb Hm].
  apply is_size_spec in Hn. unfold align_up.
  on_target t; Z.div_mod_to_equations; lia.
Qed.

Lemma alignof_container (t : target) (n : Z) :
  alignof (INTERNAL_BSTR_CONTAINER__ t n) = sizeof_int3264 t.
Proof. destruct t; reflexivity. Qed.

Lemma sizeof_container_unfold (t : target) (n : Z) :
  sizeof (INTERNAL_BSTR_CONTAINER__ t n)
  = align_up (sizeof_int3264 t + capacity t n) (sizeof_int3264 t).
Proof. destruct t; reflexivity. Qed.

Lemma sizeof_container (t : target) (n : Z) :
  is_size t n = true -> n + sizeof_int3264 t < SIZE_MOD t ->
  sizeof (INTERNAL_BSTR_CONTAINER__ t n) = sizeof_int3264 t + capacity t n.
Proof.
  intros Hn Hw. rewrite sizeof_container_unfold, (capacity_eq t n Hn Hw).
  pose proof (round_up_bounds t n) as [Hb Hm]. unfold align_up.
  on_target t; Z.div_mod_to_equations; lia.
Qed.

(** Where the members are. *)
Lemma offset_bstr (t : target) (n : Z) :
  member_offset (INTERNAL_BSTR_CONTAINER__ t n) "bstr"
  = Some (sizeof_int3264 t, bstr_array t n).
Proof. destruct t; reflexivity. Qed.

Lemma offset_bytestr (t : target) (n : Z) :
  member_offset (INTERNAL_BSTR_CONTAINER__ t n) "bytestr"
  = Some (sizeof_int3264 t, bytestr_array t n).
Proof. destruct t; reflexivity. Qed.

Lemma offset_length (t : target) (n : Z) :
  path_offset (INTERNAL_BSTR_CONTAINER__ t n) ["prefix"%string; "length"%string]
  = Some (sizeof_int3264 t - sizeof_UINT, T_UINT).
Proof. destruct t; reflexivity. Qed.

(** ** Memory: what a store changes and what a load sees *)

Lemma write_byte_same (m : memory) (a : addr) (b : Z) : write_byte m a b a = Some b.
Proof. unfold write_byte. rewrite Z.eqb_refl. reflexivity. Qed.

Lemma write_byte_other (m : memory) (a x : addr) (b : Z) :
  x <> a -> write_byte m a b x = m x.
Proof. intros H. unfold write_byte. apply Z.eqb_neq in H. rewrite H. reflexivity. Qed.

Lemma store_bytes_outside (bs : list Z) :
  forall (m : memory) (a x : addr),
    x < a \/ a + Z.of_nat (List.length bs) <= x ->
    store_bytes m a bs x = m x.
Proof.
  induction bs as [| b r IH]; intros m a x Hx; [reflexivity |].
  cbn [store_bytes]. cbn [List.length] in Hx.
  rewrite IH by lia. apply write_byte_other. lia.
Qed.

Lemma load_store_bytes (bs : list Z) :
  forall (m : memory) (a : addr),
    load_bytes (store_bytes m a bs) a (List.length bs) = Some bs.
Proof.
  induction bs as [| b r IH]; intros m a; [reflexivity |].
  cbn [store_bytes List.length load_bytes].
  rewrite store_bytes_outside by lia.
  rewrite write_byte_same, IH. reflexivity.
Qed.

(** A load depends on the bytes it reads and on nothing else. *)
Lemma load_bytes_ext (n : nat) :
  forall (m m' : memory) (a : addr),
    (forall x, a <= x < a + Z.of_nat n -> m x = m' x) ->
    load_bytes m a n = load_bytes m' a n.
Proof.
  induction n as [| k IH]; intros m m' a H; [reflexivity |].
  cbn [load_bytes]. rewrite (H a) by lia.
  rewrite (IH m m' (a + 1)) by (intros x Hx; apply H; lia).
  reflexivity.
Qed.

Lemma length_le_split (n : nat) : forall v, List.length (le_split n v) = n.
Proof. induction n as [| k IH]; intros v; cbn [le_split List.length]; [| rewrite IH]; reflexivity. Qed.

Lemma le_combine_split (n : nat) :
  forall v, le_combine (le_split n v) = v mod 256 ^ Z.of_nat n.
Proof.
  induction n as [| k IH]; intros v.
  - cbn [le_split le_combine]. rewrite Z.pow_0_r, Z.mod_1_r. reflexivity.
  - cbn [le_split le_combine]. rewrite IH, Nat2Z.inj_succ, Z.pow_succ_r by lia.
    rewrite Z.rem_mul_r by lia. reflexivity.
Qed.

Lemma load_store_UINT (m : memory) (a : addr) (v : Z) :
  load_UINT (store_UINT m a v) a = Some (to_UINT v).
Proof.
  unfold load_UINT, store_UINT.
  rewrite <- (length_le_split (Z.to_nat sizeof_UINT) v) at 2.
  rewrite load_store_bytes. cbn [option_map]. rewrite le_combine_split. reflexivity.
Qed.

Lemma store_UINT_outside (m : memory) (a x : addr) (v : Z) :
  x < a \/ a + sizeof_UINT <= x -> store_UINT m a v x = m x.
Proof.
  intros H. unfold store_UINT. apply store_bytes_outside.
  rewrite length_le_split. exact H.
Qed.

Lemma load_UINT_ext (m m' : memory) (a : addr) :
  (forall x, a <= x < a + sizeof_UINT -> m x = m' x) ->
  load_UINT m a = load_UINT m' a.
Proof.
  intros H. unfold load_UINT. f_equal. apply load_bytes_ext. exact H.
Qed.


Lemma fill_inside (m : memory) (a : addr) (n : Z) (c : option Z) (x : addr) :
  a <= x < a + n -> fill m a n c x = c.
Proof.
  intros [H1 H2]. unfold fill.
  apply Z.leb_le in H1. apply Z.ltb_lt in H2. rewrite H1, H2. reflexivity.
Qed.

Lemma fill_outside (m : memory) (a : addr) (n : Z) (c : option Z) (x : addr) :
  x < a \/ a + n <= x -> fill m a n c x = m x.
Proof.
  intros H. unfold fill.
  destruct (Z.leb_spec a x); destruct (Z.ltb_spec x (a + n)); try reflexivity; lia.
Qed.

Lemma store_elems_outside (eltsize : Z) (elems : list Z) :
  0 <= eltsize ->
  forall (m : memory) (a x : addr),
    x < a \/ a + eltsize * Z.of_nat (List.length elems) <= x ->
    store_elems eltsize m a elems x = m x.
Proof.
  intros He. induction elems as [| e r IH]; intros m a x Hx; [reflexivity |].
  cbn [store_elems]. cbn [List.length] in Hx.
  rewrite IH by nia.
  apply store_bytes_outside. rewrite length_le_split, Z2Nat.id by exact He. nia.
Qed.

(** ** Length accessors *)

Lemma GET_SET_BSTR_BYTE_LEN (m : memory) (h : addr) (n : Z) :
  GET_BSTR_BYTE_LEN (SET_BSTR_BYTE_LEN m h n) h = Some (to_UINT n).
Proof.
  unfold GET_BSTR_BYTE_LEN, SET_BSTR_BYTE_LEN.
  rewrite load_store_UINT. unfold to_UINT. rewrite Z.mod_mod by discriminate. reflexivity.
Qed.

Lemma GET_BYTE_SET_BSTR_LEN (t : target) (m : memory) (h : addr) (L : Z) :
  GET_BSTR_BYTE_LEN (SET_BSTR_LEN t m h L) h = Some (to_UINT (L * sizeof_WCHAR)).
Proof.
  unfold GET_BSTR_BYTE_LEN, SET_BSTR_LEN, size_mul.
  rewrite load_store_UINT, to_UINT_to_size.
  unfold to_UINT. rewrite Z.mod_mod by discriminate. reflexivity.
Qed.

Lemma half_UINT (v : Z) : 0 <= v < UINT_MOD -> to_UINT (v / sizeof_WCHAR) = v / sizeof_WCHAR.
Proof.
  intros Hv. apply to_UINT_small.
  unfold UINT_MOD, sizeof_WCHAR in *. change (2 ^ 32) with 4294967296 in *.
  Z.div_mod_to_equations; lia.
Qed.

Lemma to_UINT_range (z : Z) : 0 <= to_UINT z < UINT_MOD.
Proof. apply Z.mod_pos_bound. reflexivity. Qed.

Lemma GET_BSTR_LEN_of_byte_len (m : memory) (h : addr) (v : Z) :
  GET_BSTR_BYTE_LEN m h = Some v -> 0 <= v < UINT_MOD ->
  GET_BSTR_LEN m h = Some (v / sizeof_WCHAR).
Proof.
  unfold GET_BSTR_BYTE_LEN, GET_BSTR_LEN. intros -> Hv.
  cbn [option_map]. rewrite half_UINT by exact Hv. reflexivity.
Qed.

Lemma GET_SET_BSTR_LEN (t : target) (m : memory) (h : addr) (L : Z) :
  GET_BSTR_LEN (SET_BSTR_LEN t m h L) h
  = Some (to_UINT (L * sizeof_WCHAR) / sizeof_WCHAR).
Proof.
  apply GET_BSTR_LEN_of_byte_len; [apply GET_BYTE_SET_BSTR_LEN | apply to_UINT_range].
Qed.

Lemma GET_LEN_SET_BSTR_BYTE_LEN (m : memory) (h : addr) (n : Z) :
  GET_BSTR_LEN (SET_BSTR_BYTE_LEN m h n) h = Some (to_UINT n / sizeof_WCHAR).
Proof.
  apply GET_BSTR_LEN_of_byte_len; [apply GET_SET_BSTR_BYTE_LEN | apply to_UINT_range].
Qed.

(** A set-length writes the four bytes of the length field only. *)
Lemma SET_BSTR_LEN_outside (t : target) (m : memory) (h : addr) (L : Z) (x : addr) :
  x < length_field h \/ h <= x -> SET_BSTR_LEN t m h L x = m x.
Proof.
  intros H. unfold SET_BSTR_LEN. apply store_UINT_outside.
  unfold length_field, sizeof_UINT in *. lia.
Qed.

Lemma SET_BSTR_BYTE_LEN_outside (m : memory) (h : addr) (n : Z) (x : addr) :
  x < length_field h \/ h <= x -> SET_BSTR_BYTE_LEN m h n x = m x.
Proof.
  intros H. unfold SET_BSTR_BYTE_LEN. apply store_UINT_outside.
  unfold length_field, sizeof_UINT in *. lia.
Qed.

(** The handle of a container sits one native word above its base. *)
Lemma member_address_bstr (t : target) (c : container) (n : Z) (base : addr) :
  c_type c = INTERNAL_BSTR_CONTAINER__ t n ->
  member_address c base "bstr" = Some (base + sizeof_int3264 t).
Proof.
  intros Hc. unfold member_address. rewrite Hc, offset_bstr. reflexivity.
Qed.

(** The length field of the container is the one the accessors address. *)
Lemma length_field_of_handle (t : target) (base : addr) :
  length_field (base + sizeof_int3264 t) = base + (sizeof_int3264 t - sizeof_UINT).
Proof. unfold length_field. lia. Qed.

(** ** Construction *)

Lemma uninitialized_type (t : target) (k : mode) (count_ : Z) :
  c_type (uninitialized_container t k count_)
  = INTERNAL_BSTR_CONTAINER__ t (requested_bytes t k count_).
Proof. destruct k; reflexivity. Qed.

Lemma initialized_type (t : target) (k : mode) (count_ : Z) (va : list Z) :
  c_type (initialized_container t k count_ va)
  = INTERNAL_BSTR_CONTAINER__ t (requested_bytes t k count_).
Proof. destruct k; reflexivity. Qed.

Lemma align_up_ge (x a : Z) : 0 < a -> x <= align_up x a.
Proof. intros Ha. unfold align_up. Z.div_mod_to_equations; nia. Qed.

Lemma capacity_nonneg (t : target) (n : Z) : 0 <= capacity t n.
Proof.
  rewrite capacity_unfold.
  etransitivity; [| apply align_up_ge; lia]. lia.
Qed.

(** The object covers the prefix and the whole buffer. *)
Lemma sizeof_container_covers (t : target) (n : Z) :
  sizeof_int3264 t + capacity t n <= sizeof (INTERNAL_BSTR_CONTAINER__ t n).
Proof.
  rewrite sizeof_container_unfold. apply align_up_ge. destruct t; reflexivity.
Qed.

Lemma sizeof_int3264_ge (t : target) : sizeof_UINT <= sizeof_int3264 t.
Proof. destruct t; unfold sizeof_UINT; simpl; lia. Qed.

(** The initializer of either initializing macro, written out. *)
Lemma initialize_container (t : target) (n : Z) (i : designated_init)
      (elt : ctype) (count : Z) (base : addr) (m : memory) :
  member_offset (INTERNAL_BSTR_CONTAINER__ t n) (init_member i)
  = Some (sizeof_int3264 t, T_array elt count) ->
  Z.of_nat (List.length (init_elems i)) <= count ->
  initialize (INTERNAL_BSTR_CONTAINER__ t n) i base m
  = Some (store_elems (sizeof elt)
            (store_UINT (fill m base (sizeof (INTERNAL_BSTR_CONTAINER__ t n)) (Some 0))
               (length_field (handle t base)) (to_UINT (init_length i)))
            (handle t base) (init_elems i)).
Proof.
  intros Hm Hfit. unfold initialize. rewrite offset_length, Hm.
  apply Z.leb_le in Hfit. rewrite Hfit.
  unfold handle. rewrite length_field_of_handle. reflexivity.
Qed.

Lemma sizeof_elt_nonneg (k : mode) : 0 <= char_size k.
Proof. destruct k; unfold char_size, sizeof_WCHAR; lia. Qed.

(** What an initialized object holds: the length given, and zeros from the
    end of the elements given to the end of the buffer. *)
Lemma initialized_memory (t : target) (n : Z) (i : designated_init)
      (elt : ctype) (count : Z) (base : addr) (m : memory) :
  member_offset (INTERNAL_BSTR_CONTAINER__ t n) (init_member i)
  = Some (sizeof_int3264 t, T_array elt count) ->
  0 <= sizeof elt ->
  Z.of_nat (List.length (init_elems i)) <= count ->
  exists m',
    initialize (INTERNAL_BSTR_CONTAINER__ t n) i base m = Some m'
    /\ GET_BSTR_BYTE_LEN m' (handle t base) = Some (to_UINT (init_length i))
    /\ (forall x,
          handle t base + sizeof elt * Z.of_nat (List.length (init_elems i)) <= x
          < handle t base + capacity t n ->
          m' x = Some 0)
    /\ (forall x, base <= x < length_field (handle t base) -> m' x = Some 0).
Proof.
  intros Hm He Hfit. eexists. split; [apply (initialize_container t n i elt count); assumption |].
  pose proof (sizeof_container_covers t n) as Hc.
  pose proof (sizeof_int3264_ge t) as Hw.
  assert (Hlf : length_field (handle t base) = handle t base - sizeof_UINT)
    by (unfold length_field; lia).
  unfold handle in *. unfold sizeof_UINT in *.
  split; [| split].
  - unfold GET_BSTR_BYTE_LEN.
    rewrite (load_UINT_ext _ (store_UINT (fill m base (sizeof (INTERNAL_BSTR_CONTAINER__ t n))
                                           (Some 0))
                                (length_field (base + sizeof_int3264 t))
                                (to_UINT (init_length i)))).
    + rewrite load_store_UINT. unfold to_UINT. rewrite Z.mod_mod by discriminate. reflexivity.
    + intros x Hx. apply store_elems_outside; [exact He |]. unfold sizeof_UINT in Hx. lia.
  - intros x Hx. rewrite store_elems_outside by (try exact He; lia).
    rewrite store_UINT_outside by (unfold sizeof_UINT; lia).
    apply fill_inside. nia.
  - intros x Hx. rewrite store_elems_outside by (try exact He; lia).
    rewrite store_UINT_outside by (unfold sizeof_UINT; lia).
    apply fill_inside. pose proof (capacity_nonneg t n). lia.
Qed.

(** * The claims *)

(** ** Length accessors: round trip, coherence, frame *)

(** A length whose byte count is a [UINT] comes back as it was set. *)
Lemma get_set_length (t : target) (k : mode) (m : memory) (h : addr) (L : Z) :
  0 <= L -> L * char_size k < UINT_MOD ->
  get_length k (set_length t k m h L) h = Some L.
Proof.
  intros H0 H1. destruct k; cbn [get_length set_length char_size] in *.
  - rewrite GET_SET_BSTR_LEN, to_UINT_small by (unfold sizeof_WCHAR in *; lia).
    rewrite Z.div_mul by discriminate. reflexivity.
  - rewrite GET_SET_BSTR_BYTE_LEN, to_UINT_small by lia. reflexivity.
Qed.

(** On a 32-bit target every length within the capacity of a declarable
    container has a byte count that is a [UINT]. *)
Lemma capacity_is_UINT_Win32 (n : Z) :
  declarable Win32 (INTERNAL_BSTR_CONTAINER__ Win32 n) = true ->
  capacity Win32 n < UINT_MOD.
Proof.
  intros Hd. unfold declarable in Hd. apply andb_true_iff in Hd. destruct Hd as [_ Hs].
  apply Z.ltb_lt in Hs. pose proof (sizeof_container_covers Win32 n) as Hc.
  change (SIZE_MOD Win32) with UINT_MOD in Hs. simpl sizeof_int3264 in Hc. lia.
Qed.

(** C1, as amended.  For every handle of a container built by one of the
    constructors and every length [L] within the capacity of its buffer
    whose byte count ([L * sizeof(WCHAR)] in wide mode, [L] in byte mode)
    fits the 32-bit prefix, set-length [L] followed by get-length returns
    [L], in wide mode ([SET_BSTR_LEN], [GET_BSTR_LEN]) and in byte mode
    ([SET_BSTR_BYTE_LEN], [GET_BSTR_BYTE_LEN]). *)
Theorem length_roundtrip (t : target) (k : mode) (c : container) (n : Z)
        (base h : addr) (m : memory) (L : Z) :
  c_type c = INTERNAL_BSTR_CONTAINER__ t n ->
  member_address c base "bstr" = Some h ->
  0 <= L ->
  L * char_size k <= capacity t n ->
  L * char_size k < UINT_MOD ->
  get_length k (set_length t k m h L) h = Some L.
Proof.
  intros _ _ H0 _ H1. apply get_set_length; assumption.
Qed.

Lemma length_roundtrip_witness :
  GET_BSTR_LEN (SET_BSTR_LEN Win64 no_memory 4104 9) 4104 = Some 9.
Proof.
  apply (length_roundtrip Win64 Wide (INITIALIZED_BSTR_CONTAINER Win64 11 digits) 22 4096).
  - reflexivity.
  - reflexivity.
  - lia.
  - vm_compute. discriminate.
  - vm_compute. reflexivity.
Defined.

(** C1 as stated fails on a 64-bit target: a container of more than 4 GiB
    has lengths within its capacity that the 32-bit prefix cannot hold, and
    the cast to [UINT] in the set-length macros drops their high bits. *)
Lemma length_roundtrip_fails_past_UINT :
  let c := BSTR_BYTE_CONTAINER Win64 4294967297 in
  declarable Win64 (c_type c) = true
  /\ member_address c 4096 "bstr" = Some 4104
  /\ (0 <= 4294967296 /\ 4294967296 * char_size Byte <= capacity Win64 4294967297)
  /\ GET_BSTR_BYTE_LEN (SET_BSTR_BYTE_LEN no_memory 4104 4294967296) 4104 = Some 0
  /\ GET_BSTR_BYTE_LEN (SET_BSTR_BYTE_LEN no_memory 4104 4294967296) 4104
     <> Some 4294967296
  /\ (0 <= 2147483648 /\ 2147483648 * char_size Wide <= capacity Win64 4294967297)
  /\ GET_BSTR_LEN (SET_BSTR_LEN Win64 no_memory 4104 2147483648) 4104 = Some 0
  /\ GET_BSTR_LEN (SET_BSTR_LEN Win64 no_memory 4104 2147483648) 4104
     <> Some 2147483648.
Proof.
  cbv zeta. repeat split; try (vm_compute; (reflexivity || discriminate)).
Qed.

(** On a 32-bit target the amendment costs nothing: C1 holds as stated. *)
Lemma length_roundtrip_Win32 (k : mode) (n : Z) (m : memory) (h : addr) (L : Z) :
  declarable Win32 (INTERNAL_BSTR_CONTAINER__ Win32 n) = true ->
  0 <= L -> L * char_size k <= capacity Win32 n ->
  get_length k (set_length Win32 k m h L) h = Some L.
Proof.
  intros Hd H0 H1. apply get_set_length; [exact H0 |].
  pose proof (capacity_is_UINT_Win32 n Hd). lia.
Qed.

(** C9, as amended.  On one handle, after [SET_BSTR_BYTE_LEN(handle, n)]
    [GET_BSTR_LEN(handle)] returns [n] truncated to 32 bits and divided by
    [sizeof(WCHAR)], which is [n / sizeof(WCHAR)] when [n] is a [UINT]; after
    [SET_BSTR_LEN(handle, L)] [GET_BSTR_BYTE_LEN(handle)] returns
    [L * sizeof(WCHAR)] truncated to 32 bits.  The wide accessors are the
    byte accessors composed with the multiplication or the division by
    [sizeof(WCHAR)]. *)
Theorem accessors_coherent (t : target) (m : memory) (h : addr) (n L : Z) :
  GET_BSTR_LEN (SET_BSTR_BYTE_LEN m h n) h = Some (to_UINT n / sizeof_WCHAR)
  /\ (is_UINT n = true ->
      GET_BSTR_LEN (SET_BSTR_BYTE_LEN m h n) h = Some (n / sizeof_WCHAR))
  /\ GET_BSTR_BYTE_LEN (SET_BSTR_LEN t m h L) h = Some (to_UINT (L * sizeof_WCHAR))
  /\ SET_BSTR_LEN t m h L = SET_BSTR_BYTE_LEN m h (size_mul t L sizeof_WCHAR)
  /\ (forall v, GET_BSTR_BYTE_LEN m h = Some v -> is_UINT v = true ->
                GET_BSTR_LEN m h = Some (v / sizeof_WCHAR)).
Proof.
  split; [apply GET_LEN_SET_BSTR_BYTE_LEN |].
  split.
  { intros Hn. apply is_UINT_spec in Hn.
    rewrite GET_LEN_SET_BSTR_BYTE_LEN, to_UINT_small by exact Hn. reflexivity. }
  split; [apply GET_BYTE_SET_BSTR_LEN |].
  split; [reflexivity |].
  intros v Hv Hr. apply is_UINT_spec in Hr. apply GET_BSTR_LEN_of_byte_len; assumption.
Qed.

Lemma accessors_coherent_witness :
  GET_BSTR_LEN (SET_BSTR_BYTE_LEN no_memory 4104 21) 4104 = Some 10.
Proof.
  exact (proj1 (proj2 (accessors_coherent Win64 no_memory 4104 21 0)) eq_refl).
Defined.

(** C9 as stated fails for a byte count that is a [size_t] but not a
    [UINT]: [GET_BSTR_LEN] does not return [n / sizeof(WCHAR)]. *)
Lemma accessors_coherent_fails_past_UINT :
  is_size Win64 4294967296 = true
  /\ GET_BSTR_LEN (SET_BSTR_BYTE_LEN no_memory 4104 4294967296) 4104 = Some 0
  /\ 4294967296 / sizeof_WCHAR = 2147483648
  /\ GET_BSTR_LEN (SET_BSTR_BYTE_LEN no_memory 4104 4294967296) 4104
     <> Some (4294967296 / sizeof_WCHAR).
Proof.
  repeat split; try (vm_compute; (reflexivity || discriminate)).
Qed.

(** C10.  [SET_BSTR_LEN] and [SET_BSTR_BYTE_LEN] write the four bytes of
    the length field just below the handle and nothing else: every byte of
    the buffer, and every byte of the container outside the length field,
    is as it was. *)
Theorem set_length_frame (t : target) (k : mode) (c : container) (n : Z)
        (base h : addr) (m : memory) (L : Z) :
  c_type c = INTERNAL_BSTR_CONTAINER__ t n ->
  member_address c base "bstr" = Some h ->
  path_offset (c_type c) ["prefix"%string; "length"%string]
  = Some (length_field h - base, T_UINT)
  /\ length_field h + sizeof T_UINT = h
  /\ (forall x, x < length_field h \/ h <= x -> set_length t k m h L x = m x)
  /\ (forall x, h <= x < h + capacity t n -> set_length t k m h L x = m x)
  /\ (forall x, base <= x < base + sizeof (c_type c) ->
                ~ (length_field h <= x < length_field h + sizeof T_UINT) ->
                set_length t k m h L x = m x).
Proof.
  intros Hc Hh. rewrite (member_address_bstr t c n base Hc) in Hh.
  injection Hh as <-. rewrite Hc, offset_length, length_field_of_handle.
  assert (Hout : forall x, x < length_field (base + sizeof_int3264 t)
                           \/ base + sizeof_int3264 t <= x ->
                           set_length t k m (base + sizeof_int3264 t) L x = m x).
  { intros x Hx. destruct k; cbn [set_length];
      [apply SET_BSTR_LEN_outside | apply SET_BSTR_BYTE_LEN_outside]; exact Hx. }
  split; [f_equal; f_equal; lia |].
  split; [cbn [sizeof]; unfold sizeof_UINT; lia |].
  split; [rewrite <- length_field_of_handle; exact Hout |].
  split.
  - intros x Hx. apply Hout. lia.
  - intros x _ Hx. apply Hout. rewrite length_field_of_handle in *.
    cbn [sizeof] in Hx. unfold sizeof_UINT in *. lia.
Qed.

Lemma set_length_frame_witness :
  SET_BSTR_LEN Win64 no_memory 4104 9 4110 = no_memory 4110.
Proof.
  refine (proj1 (proj2 (proj2 (proj2
            (set_length_frame Win64 Wide (INITIALIZED_BSTR_CONTAINER Win64 11 digits) 22
               4096 4104 no_memory 9 eq_refl eq_refl)))) 4110 _).
  vm_compute. split; [discriminate | reflexivity].
Defined.

(** ** Value-initialized containers *)

Lemma to_UINT_mul_to_size (t : target) (a b : Z) :
  to_UINT (to_size t a * b) = to_UINT (a * b).
Proof.
  unfold to_UINT. rewrite <- (Z.mul_mod_idemp_l (to_size t a)) by discriminate.
  fold (to_UINT (to_size t a)). rewrite to_UINT_to_size. unfold to_UINT.
  rewrite Z.mul_mod_idemp_l by discriminate. reflexivity.
Qed.

(** The stored length is the declared count less one, times the character
    size, as far as 32 bits go. *)
Lemma stored_length_eq (t : target) (k : mode) (count_ : Z) :
  stored_length t k count_ = to_UINT ((count_ - 1) * char_size k).
Proof.
  unfold stored_length, size_mul, size_sub. destruct k; cbn [char_size].
  - rewrite to_UINT_to_size. apply to_UINT_mul_to_size.
  - rewrite to_UINT_to_size, Z.mul_1_r. reflexivity.
Qed.

Lemma stored_length_small (t : target) (k : mode) (count_ : Z) :
  1 <= count_ -> (count_ - 1) * char_size k < UINT_MOD ->
  stored_length t k count_ = (count_ - 1) * char_size k.
Proof.
  intros H1 H2. rewrite stored_length_eq. apply to_UINT_small.
  pose proof (sizeof_elt_nonneg k). nia.
Qed.

Lemma initialized_handle (t : target) (k : mode) (count_ : Z) (va : list Z) (base : addr) :
  member_address (initialized_container t k count_ va) base "bstr" = Some (handle t base).
Proof. apply (member_address_bstr t _ _ base (initialized_type t k count_ va)). Qed.

Lemma uninitialized_handle (t : target) (k : mode) (count_ : Z) (base : addr) :
  member_address (uninitialized_container t k count_) base "bstr" = Some (handle t base).
Proof. apply (member_address_bstr t _ _ base (uninitialized_type t k count_)). Qed.

(** Definition of an initialized container, in either storage. *)
Lemma define_initialized (t : target) (k : mode) (count_ : Z) (va : list Z)
      (sd : storage) (base : addr) (m : memory) :
  initializer_fits (initialized_container t k count_ va) = true ->
  exists m',
    define_object sd (initialized_container t k count_ va) base m = Some m'
    /\ GET_BSTR_BYTE_LEN m' (handle t base) = Some (stored_length t k count_)
    /\ (forall x,
          handle t base + char_size k * Z.of_nat (List.length va) <= x
          < handle t base + capacity t (requested_bytes t k count_) ->
          m' x = Some 0)
    /\ (forall x, base <= x < length_field (handle t base) -> m' x = Some 0).
Proof.
  intros Hfit. unfold stored_length.
  destruct k; unfold initializer_fits in Hfit;
    cbn [initialized_container INITIALIZED_BSTR_CONTAINER INITIALIZED_BSTR_BYTE_CONTAINER
         BSTR_CONTAINER BSTR_BYTE_CONTAINER c_type c_init init_member init_elems] in Hfit;
    unfold define_object;
    cbn [initialized_container INITIALIZED_BSTR_CONTAINER INITIALIZED_BSTR_BYTE_CONTAINER
         BSTR_CONTAINER BSTR_BYTE_CONTAINER c_type c_init requested_bytes char_size].
  - rewrite offset_bstr in Hfit. unfold bstr_array in Hfit. apply Z.leb_le in Hfit.
    refine (initialized_memory t (size_mul t count_ sizeof_WCHAR)
              {| init_length := size_mul t (size_sub t count_ 1) sizeof_WCHAR;
                 init_member := "bstr"; init_elems := va |}
              T_WCHAR _ base m (offset_bstr _ _) _ Hfit).
    cbn. lia.
  - rewrite offset_bytestr in Hfit. unfold bytestr_array in Hfit. apply Z.leb_le in Hfit.
    refine (initialized_memory t count_
              {| init_length := size_sub t count_ 1;
                 init_member := "bytestr"; init_elems := va |}
              T_char _ base m (offset_bytestr _ _) _ Hfit).
    cbn. lia.
Qed.

(** A wrapper assigns the handle and touches nothing else. *)
Lemma scoped_wrapper_spec (c : container) (v : string) (site : addr) (st : state) :
  exists st',
    scoped_wrapper c v site st = Some st'
    /\ mem st' = mem st
    /\ vars st' v = member_address c site "bstr"
    /\ (forall x, x <> v -> vars st' x = vars st x).
Proof.
  eexists. split; [reflexivity |]. cbn. rewrite String.eqb_refl.
  split; [reflexivity |]. split; [reflexivity |].
  intros x Hx. apply String.eqb_neq in Hx. rewrite Hx. reflexivity.
Qed.

(** C2, as amended.  Value-initializing a wide container with a declared
    capacity [bufcount_] between 1 and 2^31 stores
    [(bufcount_ - 1) * sizeof(WCHAR)] in the length prefix at construction,
    so [GET_BSTR_LEN] on its handle returns [bufcount_ - 1]; a later
    [SET_BSTR_LEN(handle, L)] makes it return [L].  At capacity 11 with the
    content "1234567890" this is 10, and 9 after [SET_BSTR_LEN(handle, 9)]
    (the witness). *)
Theorem initialized_wide_length (t : target) (sd : storage) (bufcount_ : Z)
        (va : list Z) (base : addr) (m : memory) :
  1 <= bufcount_ <= 2147483648 ->
  initializer_fits (INITIALIZED_BSTR_CONTAINER t bufcount_ va) = true ->
  exists m' h,
    define_object sd (INITIALIZED_BSTR_CONTAINER t bufcount_ va) base m = Some m'
    /\ member_address (INITIALIZED_BSTR_CONTAINER t bufcount_ va) base "bstr" = Some h
    /\ GET_BSTR_BYTE_LEN m' h = Some ((bufcount_ - 1) * sizeof_WCHAR)
    /\ GET_BSTR_LEN m' h = Some (bufcount_ - 1)
    /\ (forall L, 0 <= L < 2147483648 ->
                  GET_BSTR_LEN (SET_BSTR_LEN t m' h L) h = Some L).
Proof.
  intros Hb Hfit.
  destruct (define_initialized t Wide bufcount_ va sd base m Hfit) as (m' & Hd & Hl & _).
  exists m', (handle t base).
  rewrite (stored_length_small t Wide) in Hl
    by (cbn [char_size]; unfold sizeof_WCHAR, UINT_MOD; lia).
  cbn [char_size] in Hl.
  split; [exact Hd |]. split; [apply (initialized_handle t Wide) |].
  split; [exact Hl |]. split.
  - rewrite (GET_BSTR_LEN_of_byte_len _ _ _ Hl)
      by (unfold sizeof_WCHAR, UINT_MOD; lia).
    rewrite Z.div_mul by discriminate. reflexivity.
  - intros L HL. apply (get_set_length t Wide); [lia |].
    cbn [char_size]. unfold sizeof_WCHAR, UINT_MOD. lia.
Qed.

Lemma initialized_wide_length_witness :
  exists m' h,
    define_object Static (INITIALIZED_BSTR_CONTAINER Win64 11 digits) 4096 no_memory
    = Some m'
    /\ member_address (INITIALIZED_BSTR_CONTAINER Win64 11 digits) 4096 "bstr" = Some h
    /\ GET_BSTR_LEN m' h = Some 10
    /\ GET_BSTR_LEN (SET_BSTR_LEN Win64 m' h 9) h = Some 9.
Proof.
  destruct (initialized_wide_length Win64 Static 11 digits 4096 no_memory)
    as (m' & h & Hd & Hh & _ & Hg & Hs).
  - lia.
  - reflexivity.
  - exists m', h. repeat split; [exact Hd | exact Hh | exact Hg | apply Hs; lia].
Defined.

(** C2 as stated fails at both ends of the range: a declared capacity of 0
    stores 0xFFFFFFFE, and on a 64-bit target a capacity above 2^31 stores
    the byte count without its high bits. *)
Lemma initialized_wide_length_fails_out_of_range :
  (declarable Win32 (c_type (INITIALIZED_BSTR_CONTAINER Win32 0 [])) = true
   /\ initializer_fits (INITIALIZED_BSTR_CONTAINER Win32 0 []) = true
   /\ exists m',
       define_object Static (INITIALIZED_BSTR_CONTAINER Win32 0 []) 4096 no_memory
       = Some m'
       /\ GET_BSTR_LEN m' 4100 = Some 2147483647
       /\ GET_BSTR_LEN m' 4100 <> Some (0 - 1))
  /\ (declarable Win64 (c_type (INITIALIZED_BSTR_CONTAINER Win64 2147483649 [])) = true
      /\ initializer_fits (INITIALIZED_BSTR_CONTAINER Win64 2147483649 []) = true
      /\ exists m',
          define_object Static (INITIALIZED_BSTR_CONTAINER Win64 2147483649 []) 4096
            no_memory = Some m'
          /\ GET_BSTR_LEN m' 4104 = Some 0
          /\ GET_BSTR_LEN m' 4104 <> Some (2147483649 - 1)).
Proof.
  split; (split; [vm_compute; reflexivity |]); (split; [vm_compute; reflexivity |]);
    eexists; (split; [reflexivity |]); split; vm_compute; (reflexivity || discriminate).
Qed.

(** C3, as amended.  Value-initializing a byte container with a declared
    capacity [bufsize_] between 1 and 2^32 stores [bufsize_ - 1] in the
    length prefix at construction, so [GET_BSTR_BYTE_LEN] on its handle
    returns [bufsize_ - 1]; after a write into the buffer and
    [SET_BSTR_BYTE_LEN(handle, n)] it returns [n].  At capacity 11 with the
    content "1234567890" this is 10, and 5 after the content is cut at 5
    bytes and [SET_BSTR_BYTE_LEN(handle, 5)] (the witness). *)
Theorem initialized_byte_length (t : target) (sd : storage) (bufsize_ : Z)
        (va : list Z) (base : addr) (m : memory) :
  1 <= bufsize_ <= 4294967296 ->
  initializer_fits (INITIALIZED_BSTR_BYTE_CONTAINER t bufsize_ va) = true ->
  exists m' h,
    define_object sd (INITIALIZED_BSTR_BYTE_CONTAINER t bufsize_ va) base m = Some m'
    /\ member_address (INITIALIZED_BSTR_BYTE_CONTAINER t bufsize_ va) base "bstr" = Some h
    /\ GET_BSTR_BYTE_LEN m' h = Some (bufsize_ - 1)
    /\ (forall n i b, is_UINT n = true -> 0 <= i ->
          GET_BSTR_BYTE_LEN (SET_BSTR_BYTE_LEN (write_byte m' (h + i) b) h n) h = Some n).
Proof.
  intros Hb Hfit.
  destruct (define_initialized t Byte bufsize_ va sd base m Hfit) as (m' & Hd & Hl & _).
  exists m', (handle t base).
  rewrite (stored_length_small t Byte) in Hl
    by (cbn [char_size]; unfold UINT_MOD; lia).
  cbn [char_size] in Hl. rewrite Z.mul_1_r in Hl.
  split; [exact Hd |]. split; [apply (initialized_handle t Byte) |].
  split; [exact Hl |].
  intros n i b Hn _. apply is_UINT_spec in Hn.
  rewrite GET_SET_BSTR_BYTE_LEN, to_UINT_small by exact Hn. reflexivity.
Qed.

Lemma initialized_byte_length_witness :
  exists m' h,
    define_object Static (INITIALIZED_BSTR_BYTE_CONTAINER Win64 11 digits) 4096 no_memory
    = Some m'
    /\ member_address (INITIALIZED_BSTR_BYTE_CONTAINER Win64 11 digits) 4096 "bstr"
       = Some h
    /\ GET_BSTR_BYTE_LEN m' h = Some 10
    /\ GET_BSTR_BYTE_LEN (SET_BSTR_BYTE_LEN (write_byte m' (h + 5) 0) h 5) h = Some 5.
Proof.
  destruct (initialized_byte_length Win64 Static 11 digits 4096 no_memory)
    as (m' & h & Hd & Hh & Hg & Hs).
  - lia.
  - reflexivity.
  - exists m', h. repeat split; [exact Hd | exact Hh | exact Hg | apply Hs; [reflexivity | lia]].
Defined.

(** C3 as stated fails at both ends of the range: a declared capacity of 0
    stores 0xFFFFFFFF, and on a 64-bit target a capacity above 2^32 stores
    its low 32 bits. *)
Lemma initialized_byte_length_fails_out_of_range :
  (declarable Win32 (c_type (INITIALIZED_BSTR_BYTE_CONTAINER Win32 0 [])) = true
   /\ initializer_fits (INITIALIZED_BSTR_BYTE_CONTAINER Win32 0 []) = true
   /\ exists m',
       define_object Static (INITIALIZED_BSTR_BYTE_CONTAINER Win32 0 []) 4096 no_memory
       = Some m'
       /\ GET_BSTR_BYTE_LEN m' 4100 = Some 4294967295
       /\ GET_BSTR_BYTE_LEN m' 4100 <> Some (0 - 1))
  /\ (declarable Win64 (c_type (INITIALIZED_BSTR_BYTE_CONTAINER Win64 4294967297 []))
      = true
      /\ initializer_fits (INITIALIZED_BSTR_BYTE_CONTAINER Win64 4294967297 []) = true
      /\ exists m',
          define_object Static (INITIALIZED_BSTR_BYTE_CONTAINER Win64 4294967297 []) 4096
            no_memory = Some m'
          /\ GET_BSTR_BYTE_LEN m' 4104 = Some 0
          /\ GET_BSTR_BYTE_LEN m' 4104 <> Some (4294967297 - 1)).
Proof.
  split; (split; [vm_compute; reflexivity |]); (split; [vm_compute; reflexivity |]);
    eexists; (split; [reflexivity |]); split; vm_compute; (reflexivity || discriminate).
Qed.

(** The byte string of [main.c], run on a 64-bit target: the container
    holds "1234567890" with length 10; the caller writes a terminator at
    index 5 and sets the length 5. *)
Example main_bstrByte :
  exists m0 st h,
    startup (INITIALIZED_BSTR_BYTE_CONTAINER Win64 11 digits) 4096 no_memory = Some m0
    /\ MAKE_INITIALIZED_BSTR_BYTE Win64 "bstrByte" 11 digits 4096
         {| mem := m0; vars := no_vars |} = Some st
    /\ vars st "bstrByte"%string = Some h
    /\ GET_BSTR_BYTE_LEN (mem st) h = Some 10
    /\ load_bytes (mem st) h 11 = Some (digits ++ [0])
    /\ GET_BSTR_BYTE_LEN (SET_BSTR_BYTE_LEN (write_byte (mem st) (h + 5) 0) h 5) h = Some 5
    /\ load_bytes (SET_BSTR_BYTE_LEN (write_byte (mem st) (h + 5) 0) h 5) h 6
       = Some [49; 50; 51; 52; 53; 0].
Proof.
  do 3 eexists. repeat split; try reflexivity.
Qed.

(** C7, as amended.  In a value-initialized container whose initializer has
    fewer elements than the declared capacity, every byte of the buffer past
    the initializer is zero.  The stored length is the declared capacity
    less one (times the character size in wide mode) truncated to 32 bits,
    which is that byte count itself whenever it fits the 32-bit prefix.  It
    is the same for every other initializer: the construction does not
    derive it from the initializer's length. *)
Theorem initialized_trailing_zeros (t : target) (k : mode) (sd : storage) (count_ : Z)
        (va : list Z) (base : addr) (m : memory) :
  Z.of_nat (List.length va) < count_ ->
  initializer_fits (initialized_container t k count_ va) = true ->
  exists m' h,
    define_object sd (initialized_container t k count_ va) base m = Some m'
    /\ member_address (initialized_container t k count_ va) base "bstr" = Some h
    /\ (forall x,
          h + char_size k * Z.of_nat (List.length va) <= x
          < h + capacity t (requested_bytes t k count_) ->
          m' x = Some 0)
    /\ GET_BSTR_BYTE_LEN m' h = Some (to_UINT ((count_ - 1) * char_size k))
    /\ ((count_ - 1) * char_size k < UINT_MOD ->
        GET_BSTR_BYTE_LEN m' h = Some ((count_ - 1) * char_size k))
    /\ (forall va',
          initializer_fits (initialized_container t k count_ va') = true ->
          exists m'',
            define_object sd (initialized_container t k count_ va') base m = Some m''
            /\ GET_BSTR_BYTE_LEN m'' h = GET_BSTR_BYTE_LEN m' h).
Proof.
  intros Hshort Hfit.
  assert (H1 : 1 <= count_) by lia.
  destruct (define_initialized t k count_ va sd base m Hfit) as (m' & Hd & Hl & Hz & _).
  exists m', (handle t base).
  split; [exact Hd |]. split; [apply initialized_handle |].
  split; [exact Hz |].
  split; [rewrite Hl, stored_length_eq; reflexivity |].
  split; [intros Hb; rewrite Hl, (stored_length_small t k count_ H1 Hb); reflexivity |].
  intros va' Hfit'.
  destruct (define_initialized t k count_ va' sd base m Hfit') as (m'' & Hd' & Hl' & _).
  exists m''. split; [exact Hd' | congruence].
Qed.

Lemma initialized_trailing_zeros_witness :
  exists m' h,
    define_object Static (INITIALIZED_BSTR_CONTAINER Win64 11 [97; 98]) 4096 no_memory
    = Some m'
    /\ member_address (INITIALIZED_BSTR_CONTAINER Win64 11 [97; 98]) 4096 "bstr" = Some h
    /\ m' (h + 4) = Some 0
    /\ m' (h + 23) = Some 0
    /\ GET_BSTR_BYTE_LEN m' h = Some 20.
Proof.
  destruct (initialized_trailing_zeros Win64 Wide Static 11 [97; 98] 4096 no_memory)
    as (m' & h & Hd & Hh & Hz & _ & Hl & _).
  - cbn. lia.
  - reflexivity.
  - exists m', h.
    repeat split;
      [exact Hd | exact Hh | apply Hz | apply Hz | apply Hl; vm_compute; reflexivity];
      change (capacity Win64 (requested_bytes Win64 Wide 11)) with 24;
      cbn [char_size List.length]; unfold sizeof_WCHAR; lia.
Defined.

(** C7 as stated fails where the byte count does not fit the prefix: the
    stored length is not the declared capacity less one times the character
    size.  On a 32-bit target the wide count 2^31 + 1 wraps in [size_t]; on
    a 64-bit target the byte count 2^32 + 1 is cut by the conversion to
    [UINT]. *)
Lemma initialized_trailing_zeros_fails_past_UINT :
  (Z.of_nat (List.length (@nil Z)) < 2147483649
   /\ declarable Win32 (c_type (initialized_container Win32 Wide 2147483649 [])) = true
   /\ initializer_fits (initialized_container Win32 Wide 2147483649 []) = true
   /\ exists m',
       define_object Static (initialized_container Win32 Wide 2147483649 []) 4096
         no_memory = Some m'
       /\ GET_BSTR_BYTE_LEN m' 4100 = Some 0
       /\ GET_BSTR_BYTE_LEN m' 4100 <> Some ((2147483649 - 1) * char_size Wide))
  /\ (Z.of_nat (List.length (@nil Z)) < 4294967297
      /\ declarable Win64 (c_type (initialized_container Win64 Byte 4294967297 [])) = true
      /\ initializer_fits (initialized_container Win64 Byte 4294967297 []) = true
      /\ exists m',
          define_object Static (initialized_container Win64 Byte 4294967297 []) 4096
            no_memory = Some m'
          /\ GET_BSTR_BYTE_LEN m' 4104 = Some 0
          /\ GET_BSTR_BYTE_LEN m' 4104 <> Some ((4294967297 - 1) * char_size Byte)).
Proof.
  split; (split; [vm_compute; reflexivity |]); (split; [vm_compute; reflexivity |]);
    (split; [vm_compute; reflexivity |]);
    eexists; (split; [reflexivity |]); split; vm_compute; (reflexivity || discriminate).
Qed.

(** ** Uninitialized static containers *)

Lemma define_static_uninitialized (t : target) (k : mode) (count_ : Z)
      (base : addr) (m : memory) :
  exists m0,
    startup (uninitialized_container t k count_) base m = Some m0
    /\ (forall x, base <= x < handle t base + capacity t (requested_bytes t k count_) ->
                  m0 x = Some 0).
Proof.
  eexists. split.
  - unfold startup, define_object. destruct k; reflexivity.
  - intros x Hx. rewrite uninitialized_type. apply fill_inside.
    pose proof (sizeof_container_covers t (requested_bytes t k count_)).
    unfold handle in Hx. lia.
Qed.



(** ** Scoped declaration wrappers *)

Lemma scoped_wrapper_reuses (t : target) (n : Z) (c : container) (v : string) :
  c_type c = INTERNAL_BSTR_CONTAINER__ t n ->
  reuses_static_container (scoped_wrapper c v) v.
Proof.
  intros Hc site st caller.
  destruct (scoped_wrapper_spec c v site st) as (st1 & H1 & Hm1 & Hv1 & _).
  destruct (scoped_wrapper_spec c v site (caller st1)) as (st2 & H2 & Hm2 & Hv2 & _).
  rewrite (member_address_bstr t c n site Hc) in Hv1, Hv2.
  exists st1, st2, (handle t site). rewrite Hm2. repeat split; assumption.
Qed.

(** C6.  Running one of the four wrappers again at the same site leaves
    the static container as it is: the run assigns the handle variable and
    writes no memory, the handle is the same as before, and the content and
    the length read through it are what the code before the second run left
    there. *)
Theorem wrappers_reuse_static_container :
  (forall t v bufcount_, reuses_static_container (MAKE_BSTR t v bufcount_) v)
  /\ (forall t v bufcount_ va,
        reuses_static_container (MAKE_INITIALIZED_BSTR t v bufcount_ va) v)
  /\ (forall t v bufsize_, reuses_static_container (MAKE_BSTR_BYTE t v bufsize_) v)
  /\ (forall t v bufsize_ va,
        reuses_static_container (MAKE_INITIALIZED_BSTR_BYTE t v bufsize_ va) v).
Proof.
  repeat split; intros.
  - apply (scoped_wrapper_reuses t _ _ v (uninitialized_type t Wide bufcount_)).
  - apply (scoped_wrapper_reuses t _ _ v (initialized_type t Wide bufcount_ va)).
  - apply (scoped_wrapper_reuses t _ _ v (uninitialized_type t Byte bufsize_)).
  - apply (scoped_wrapper_reuses t _ _ v (initialized_type t Byte bufsize_ va)).
Qed.

(** The reentrancy test of the specification, run: the container starts
    with length 10, the caller sets 3, the wrapper runs again and the length
    read through the new handle is 3. *)
Example reentrancy_regression :
  exists m0 st1 h st2,
    startup (INITIALIZED_BSTR_CONTAINER Win64 11 digits) 4096 no_memory = Some m0
    /\ MAKE_INITIALIZED_BSTR Win64 "bstrNum" 11 digits 4096
         {| mem := m0; vars := no_vars |} = Some st1
    /\ vars st1 "bstrNum"%string = Some h
    /\ GET_BSTR_LEN (mem st1) h = Some 10
    /\ MAKE_INITIALIZED_BSTR Win64 "bstrNum" 11 digits 4096
         {| mem := SET_BSTR_LEN Win64 (mem st1) h 3; vars := vars st1 |} = Some st2
    /\ vars st2 "bstrNum"%string = Some h
    /\ GET_BSTR_LEN (mem st2) h = Some 3.
Proof.
  do 4 eexists. repeat split; try reflexivity.
Qed.

(** An automatic container is another matter: its initializer runs each time
    control reaches the declaration, and the length is 10 again. *)
Example automatic_is_initialized_again :
  exists st1 st2,
    exec_declaration Automatic (INITIALIZED_BSTR_CONTAINER Win64 11 digits) 4096
      {| mem := no_memory; vars := no_vars |} = Some st1
    /\ GET_BSTR_LEN (mem st1) 4104 = Some 10
    /\ exec_declaration Automatic (INITIALIZED_BSTR_CONTAINER Win64 11 digits) 4096
         {| mem := SET_BSTR_LEN Win64 (mem st1) 4104 3; vars := vars st1 |} = Some st2
    /\ GET_BSTR_LEN (mem st2) 4104 = Some 10.
Proof.
  do 2 eexists. repeat split; try reflexivity.
Qed.

(** ** Size and alignment of the container *)

(** C4.  For every byte count for which the container can be declared, the
    wide array and the byte array of the union each occupy
    [round_up(bytecount_, sizeof(__int3264))] bytes, where
    [round_up(n, w) = (n + w) & ~(w - 1)]; they have the same size also for
    an odd byte count, which the division by [sizeof(WCHAR)] truncates. *)
Theorem buffer_members_same_size (t : target) (bytecount_ : Z) :
  is_size t bytecount_ = true ->
  declarable t (INTERNAL_BSTR_CONTAINER__ t bytecount_) = true ->
  exists off wide bytes,
    member_offset (INTERNAL_BSTR_CONTAINER__ t bytecount_) "bstr" = Some (off, wide)
    /\ member_offset (INTERNAL_BSTR_CONTAINER__ t bytecount_) "bytestr" = Some (off, bytes)
    /\ sizeof wide = round_up bytecount_ (sizeof_int3264 t)
    /\ sizeof bytes = round_up bytecount_ (sizeof_int3264 t)
    /\ sizeof wide = sizeof bytes.
Proof.
  intros Hn Hd. pose proof (declarable_no_wrap t bytecount_ Hn Hd) as Hw.
  exists (sizeof_int3264 t), (bstr_array t bytecount_), (bytestr_array t bytecount_).
  assert (H1 : sizeof (bstr_array t bytecount_) = round_up bytecount_ (sizeof_int3264 t))
    by (rewrite sizeof_bstr_array; apply bstr_count_no_wrap; exact Hn).
  assert (H2 : sizeof (bytestr_array t bytecount_) = round_up bytecount_ (sizeof_int3264 t))
    by (rewrite sizeof_bytestr_array; apply bytestr_count_no_wrap; assumption).
  split; [apply offset_bstr |]. split; [apply offset_bytestr |].
  split; [exact H1 |]. split; [exact H2 |]. congruence.
Qed.

Lemma buffer_members_same_size_witness :
  exists off wide bytes,
    member_offset (INTERNAL_BSTR_CONTAINER__ Win64 21) "bstr" = Some (off, wide)
    /\ member_offset (INTERNAL_BSTR_CONTAINER__ Win64 21) "bytestr" = Some (off, bytes)
    /\ sizeof wide = round_up 21 (sizeof_int3264 Win64)
    /\ sizeof bytes = round_up 21 (sizeof_int3264 Win64)
    /\ sizeof wide = sizeof bytes.
Proof.
  apply (buffer_members_same_size Win64 21); reflexivity.
Defined.

(** The prefix of either target, member by member. *)
Lemma prefix_layout (t : target) (n : Z) :
  match t with
  | Win64 =>
      path_offset (INTERNAL_BSTR_CONTAINER__ t n) ["prefix"%string; "margin_dummy"%string]
      = Some (0, T_int32)
      /\ path_offset (INTERNAL_BSTR_CONTAINER__ t n) ["prefix"%string; "length"%string]
         = Some (sizeof T_int32, T_UINT)
      /\ member_offset (INTERNAL_BSTR_CONTAINER__ t n) "alignment_dummy" = Some (0, T_int64)
      /\ sizeof T_int64 = 8 /\ alignof T_int64 = 8
      /\ sizeof (snd (INTERNAL_BSTR_CONTAINER_LENGTH_PREFIX__ t)) = 8
  | Win32 =>
      member_offset (INTERNAL_BSTR_CONTAINER__ t n) "prefix"
      = Some (0, T_struct [("length"%string, T_UINT)])
      /\ path_offset (INTERNAL_BSTR_CONTAINER__ t n) ["prefix"%string; "length"%string]
         = Some (0, T_UINT)
      /\ sizeof (snd (INTERNAL_BSTR_CONTAINER_LENGTH_PREFIX__ t)) = 4
  end.
Proof. destruct t; repeat split; reflexivity. Qed.

(** The container builder itself, on the byte count it receives: wherever
    the container is placed, the buffer starts at an address aligned to the
    native word, the length field is the four bytes just below it, and the
    buffer holds at least that byte count. *)
Theorem buffer_aligned_and_large_enough (t : target) (bytecount_ : Z) (base : addr) :
  is_size t bytecount_ = true ->
  declarable t (INTERNAL_BSTR_CONTAINER__ t bytecount_) = true ->
  base mod alignof (INTERNAL_BSTR_CONTAINER__ t bytecount_) = 0 ->
  exists h,
    member_address {| c_type := INTERNAL_BSTR_CONTAINER__ t bytecount_; c_init := None |}
      base "bstr" = Some h
    /\ sizeof_int3264 t = (match t with Win32 => 4 | Win64 => 8 end)
    /\ h mod sizeof_int3264 t = 0
    /\ path_offset (INTERNAL_BSTR_CONTAINER__ t bytecount_)
         ["prefix"%string; "length"%string]
       = Some (h - sizeof T_UINT - base, T_UINT)
    /\ sizeof T_UINT = 4
    /\ match t with
       | Win64 =>
           path_offset (INTERNAL_BSTR_CONTAINER__ t bytecount_)
             ["prefix"%string; "margin_dummy"%string] = Some (0, T_int32)
           /\ sizeof T_int32 = 4
           /\ member_offset (INTERNAL_BSTR_CONTAINER__ t bytecount_) "alignment_dummy"
              = Some (0, T_int64)
           /\ sizeof T_int64 = 8
       | Win32 =>
           member_offset (INTERNAL_BSTR_CONTAINER__ t bytecount_) "prefix"
           = Some (0, T_struct [("length"%string, T_UINT)])
           /\ sizeof (T_struct [("length"%string, T_UINT)]) = 4
       end
    /\ bytecount_ <= capacity t bytecount_
    /\ capacity t bytecount_ mod sizeof_int3264 t = 0.
Proof.
  intros Hn Hd Hb. pose proof (declarable_no_wrap t bytecount_ Hn Hd) as Hw.
  rewrite alignof_container in Hb.
  exists (base + sizeof_int3264 t).
  split; [apply (member_address_bstr t _ bytecount_); reflexivity |].
  split; [destruct t; reflexivity |].
  split.
  { rewrite <- Z.add_mod_idemp_l, Hb by (destruct t; discriminate).
    destruct t; reflexivity. }
  split.
  { rewrite offset_length. f_equal. f_equal. cbn [sizeof]. unfold sizeof_UINT. lia. }
  split; [reflexivity |].
  split; [destruct t; repeat split; reflexivity |].
  rewrite (capacity_eq t bytecount_ Hn Hw).
  pose proof (round_up_bounds t bytecount_) as [Hr Hm].
  split; [lia | exact Hm].
Qed.

Lemma buffer_aligned_and_large_enough_witness :
  exists h,
    member_address {| c_type := INTERNAL_BSTR_CONTAINER__ Win64 22; c_init := None |}
      4096 "bstr" = Some h
    /\ h mod 8 = 0
    /\ path_offset (INTERNAL_BSTR_CONTAINER__ Win64 22) ["prefix"%string; "length"%string]
       = Some (h - 4 - 4096, T_UINT)
    /\ 22 <= capacity Win64 22.
Proof.
  destruct (buffer_aligned_and_large_enough Win64 22 4096)
    as (h & Hh & _ & Ha & Hl & _ & _ & Hc & _).
  - reflexivity.
  - reflexivity.
  - reflexivity.
  - exists h. repeat split; [exact Hh | exact Ha | exact Hl | exact Hc].
Defined.

(** The wide entry point multiplies the count by [sizeof(WCHAR)] before the
    container is sized.  As long as that product is a [size_t] the buffer
    holds the wide characters requested. *)
Lemma wide_capacity (t : target) (bufcount_ : Z) :
  0 <= bufcount_ -> bufcount_ * sizeof_WCHAR < SIZE_MOD t ->
  declarable t (c_type (BSTR_CONTAINER t bufcount_)) = true ->
  bufcount_ * sizeof_WCHAR <= capacity t (requested_bytes t Wide bufcount_).
Proof.
  intros H0 H1 Hd. cbn [requested_bytes BSTR_CONTAINER c_type] in *.
  unfold size_mul in *. unfold sizeof_WCHAR in *.
  rewrite to_size_small in * by lia.
  assert (Hn : is_size t (bufcount_ * 2) = true) by (apply is_size_spec; lia).
  rewrite (capacity_eq t _ Hn (declarable_no_wrap t _ Hn Hd)).
  pose proof (round_up_bounds t (bufcount_ * 2)) as [Hr _]. lia.
Qed.

(** When the product wraps, the container is sized for what is left of it:
    2^31 + 1 wide characters on a 32-bit target give a buffer of 4 bytes. *)
Example wide_count_wraps :
  declarable Win32 (c_type (BSTR_CONTAINER Win32 2147483649)) = true
  /\ requested_bytes Win32 Wide 2147483649 = 2
  /\ capacity Win32 (requested_bytes Win32 Wide 2147483649) = 4.
Proof. repeat split; vm_compute; reflexivity. Qed.




(** * Further properties of the macros *)

(** ** Loads and stores of characters *)

Lemma load_bytes_zero (n : nat) :
  forall (m : memory) (a : addr),
    (forall x, a <= x < a + Z.of_nat n -> m x = Some 0) ->
    option_map le_combine (load_bytes m a n) = Some 0.
Proof.
  induction n as [| j IH]; intros m a H; [reflexivity |].
  cbn [load_bytes]. rewrite (H a) by lia.
  specialize (IH m (a + 1)).
  destruct (load_bytes m (a + 1) j) as [r |]; cbn [option_map] in *.
  - assert (Hr : Some (le_combine r) = Some 0) by (apply IH; intros x Hx; apply H; lia).
    injection Hr as Hr. cbn [le_combine]. rewrite Hr. reflexivity.
  - assert (Hr : @None Z = Some 0) by (apply IH; intros x Hx; apply H; lia).
    discriminate.
Qed.

Lemma load_bytes_none (n : nat) :
  forall (m : memory) (a : addr),
    m a = None -> load_bytes m a (S n) = None.
Proof. intros m a H. cbn [load_bytes]. rewrite H. reflexivity. Qed.

(** The element with index [i] of an array stored by an initializer. *)
Lemma load_store_elems (cs : Z) (elems : list Z) :
  0 < cs ->
  forall (m : memory) (a : addr) (i : nat),
    (i < List.length elems)%nat ->
    load_bytes (store_elems cs m a elems) (a + cs * Z.of_nat i) (Z.to_nat cs)
    = Some (le_split (Z.to_nat cs) (nth i elems 0)).
Proof.
  intros Hcs. induction elems as [| e r IH]; intros m a i Hi; [cbn in Hi; lia |].
  cbn [store_elems]. destruct i as [| j].
  - cbn [nth]. rewrite Z.mul_0_r, Z.add_0_r.
    rewrite (load_bytes_ext _ _ (store_bytes m a (le_split (Z.to_nat cs) e))).
    + rewrite <- (length_le_split (Z.to_nat cs) e) at 2. apply load_store_bytes.
    + intros x Hx. apply store_elems_outside; [lia |].
      rewrite Z2Nat.id in Hx by lia. lia.
  - cbn [nth]. cbn [List.length] in Hi.
    replace (a + cs * Z.of_nat (S j)) with (a + cs + cs * Z.of_nat j) by lia.
    apply IH. lia.
Qed.

Lemma CHAR_MOD_eq (k : mode) : CHAR_MOD k = 256 ^ Z.of_nat (Z.to_nat (char_size k)).
Proof. destruct k; reflexivity. Qed.

Lemma char_size_pos (k : mode) : 0 < char_size k.
Proof. destruct k; reflexivity. Qed.

Lemma store_bytes_agree (bs : list Z) :
  forall (m1 m2 : memory) (a x : addr),
    m1 x = m2 x -> store_bytes m1 a bs x = store_bytes m2 a bs x.
Proof.
  induction bs as [| b r IH]; intros m1 m2 a x H; [exact H |].
  cbn [store_bytes]. apply IH. unfold write_byte. rewrite H. reflexivity.
Qed.

Lemma store_elems_agree (cs : Z) (elems : list Z) :
  forall (m1 m2 : memory) (a x : addr),
    m1 x = m2 x -> store_elems cs m1 a elems x = store_elems cs m2 a elems x.
Proof.
  induction elems as [| e r IH]; intros m1 m2 a x H; [exact H |].
  cbn [store_elems]. apply IH. apply store_bytes_agree. exact H.
Qed.

Lemma le_split_bytes (n : nat) :
  forall v, Forall (fun b => 0 <= b < 256) (le_split n v).
Proof.
  induction n as [| j IH]; intros v; cbn [le_split]; constructor.
  - apply Z.mod_pos_bound. lia.
  - apply IH.
Qed.

Lemma store_bytes_is_byte (bs : list Z) :
  Forall (fun b => 0 <= b < 256) bs ->
  forall (m : memory) (a x : addr),
    is_byte (m x) -> is_byte (store_bytes m a bs x).
Proof.
  induction 1 as [| b r Hb Hr IH]; intros m a x H; [exact H |].
  cbn [store_bytes]. apply IH. unfold write_byte.
  destruct (x =? a); [exists b; split; [reflexivity | exact Hb] | exact H].
Qed.

Lemma store_elems_is_byte (cs : Z) (elems : list Z) :
  forall (m : memory) (a x : addr),
    is_byte (m x) -> is_byte (store_elems cs m a elems x).
Proof.
  induction elems as [| e r IH]; intros m a x H; [exact H |].
  cbn [store_elems]. apply IH. apply store_bytes_is_byte; [apply le_split_bytes | exact H].
Qed.

(** A stored value is a list of bytes below [256 ^ n], and the other way
    round. *)
Lemma le_combine_range (bs : list Z) :
  Forall (fun b => 0 <= b < 256) bs ->
  0 <= le_combine bs < 256 ^ Z.of_nat (List.length bs).
Proof.
  induction 1 as [| b r Hb Hr IH].
  - cbn. lia.
  - cbn [le_combine List.length]. rewrite Nat2Z.inj_succ, Z.pow_succ_r by lia. lia.
Qed.

Lemma le_split_combine (bs : list Z) :
  Forall (fun b => 0 <= b < 256) bs ->
  le_split (List.length bs) (le_combine bs) = bs.
Proof.
  induction 1 as [| b r Hb Hr IH]; [reflexivity |].
  cbn [le_combine List.length le_split].
  assert (H1 : (b + 256 * le_combine r) mod 256 = b).
  { generalize (le_combine r). intros c. Z.div_mod_to_equations. lia. }
  assert (H2 : (b + 256 * le_combine r) / 256 = le_combine r).
  { generalize (le_combine r). intros c. Z.div_mod_to_equations. lia. }
  rewrite H1, H2, IH. reflexivity.
Qed.

Lemma load_bytes_length (n : nat) :
  forall (m : memory) (a : addr) (bs : list Z),
    load_bytes m a n = Some bs -> List.length bs = n.
Proof.
  induction n as [| j IH]; intros m a bs H; cbn [load_bytes] in H.
  - injection H as <-. reflexivity.
  - destruct (m a) as [b |]; [| discriminate].
    destruct (load_bytes m (a + 1) j) as [r |] eqn:Hr; [| discriminate].
    injection H as <-. cbn [List.length]. f_equal. apply (IH m (a + 1)). exact Hr.
Qed.

Lemma load_bytes_is_byte (n : nat) :
  forall (m : memory) (a : addr) (bs : list Z),
    byte_valued m a (Z.of_nat n) ->
    load_bytes m a n = Some bs -> Forall (fun b => 0 <= b < 256) bs.
Proof.
  induction n as [| j IH]; intros m a bs Hv H; cbn [load_bytes] in H.
  - injection H as <-. constructor.
  - destruct (Hv a) as (b0 & Hb0 & Hr0); [lia |]. rewrite Hb0 in H.
    destruct (load_bytes m (a + 1) j) as [r |] eqn:Hr; [| discriminate].
    injection H as <-. constructor; [exact Hr0 |].
    apply (IH m (a + 1)); [| exact Hr]. intros x Hx. apply Hv. lia.
Qed.

(** Storing what is there changes nothing. *)
Lemma store_loaded_bytes (n : nat) :
  forall (m : memory) (a : addr) (bs : list Z),
    load_bytes m a n = Some bs ->
    forall x, store_bytes m a bs x = m x.
Proof.
  induction n as [| j IH]; intros m a bs H x; cbn [load_bytes] in H.
  - injection H as <-. reflexivity.
  - destruct (m a) as [b |] eqn:Hb; [| discriminate].
    destruct (load_bytes m (a + 1) j) as [r |] eqn:Hr; [| discriminate].
    injection H as <-. cbn [store_bytes].
    assert (Hw : forall y, write_byte m a b y = m y).
    { intros y. unfold write_byte. destruct (Z.eqb_spec y a); [subst; auto | reflexivity]. }
    rewrite (store_bytes_agree r (write_byte m a b) m (a + 1) x (Hw x)).
    apply (IH m (a + 1)). exact Hr.
Qed.

(** A second store of the same width hides the first. *)
Lemma store_bytes_twice (bs1 : list Z) :
  forall (bs2 : list Z) (m : memory) (a x : addr),
    List.length bs1 = List.length bs2 ->
    store_bytes (store_bytes m a bs1) a bs2 x = store_bytes m a bs2 x.
Proof.
  induction bs1 as [| b1 r1 IH]; intros bs2 m a x Hl.
  - destruct bs2; [reflexivity | discriminate].
  - destruct bs2 as [| b2 r2]; [discriminate |]. injection Hl as Hl.
    cbn [store_bytes].
    destruct (Z.eq_dec x a) as [-> | Hx].
    + rewrite !store_bytes_outside by lia. rewrite !write_byte_same. reflexivity.
    + transitivity (store_bytes (store_bytes (write_byte m a b2) (a + 1) r1) (a + 1) r2 x).
      * apply store_bytes_agree. rewrite write_byte_other by exact Hx.
        apply store_bytes_agree. rewrite !write_byte_other by exact Hx. reflexivity.
      * apply IH. exact Hl.
Qed.

Lemma load_UINT_range (m : memory) (a : addr) (v : Z) :
  byte_valued m a sizeof_UINT -> load_UINT m a = Some v -> 0 <= v < UINT_MOD.
Proof.
  intros Hv H. unfold load_UINT in H.
  destruct (load_bytes m a (Z.to_nat sizeof_UINT)) as [bs |] eqn:Hb; [| discriminate].
  injection H as <-.
  pose proof (load_bytes_is_byte (Z.to_nat sizeof_UINT) m a bs Hv Hb) as Hf.
  pose proof (le_combine_range bs Hf) as Hr.
  rewrite (load_bytes_length _ _ _ _ Hb) in Hr. exact Hr.
Qed.

(** ** More on the length accessors *)

Lemma get_length_ext (k : mode) (m m' : memory) (h : addr) :
  (forall x, length_field h <= x < h -> m x = m' x) ->
  get_length k m h = get_length k m' h.
Proof.
  intros H.
  assert (Hl : load_UINT m (length_field h) = load_UINT m' (length_field h)).
  { apply load_UINT_ext. intros x Hx. apply H.
    unfold length_field, sizeof_UINT in *. lia. }
  destruct k; cbn [get_length]; unfold GET_BSTR_LEN, GET_BSTR_BYTE_LEN; rewrite Hl; reflexivity.
Qed.

Lemma set_length_outside (t : target) (k : mode) (m : memory) (h : addr) (L : Z) (x : addr) :
  x < length_field h \/ h <= x -> set_length t k m h L x = m x.
Proof.
  intros H. destruct k; cbn [set_length];
    [apply SET_BSTR_LEN_outside | apply SET_BSTR_BYTE_LEN_outside]; exact H.
Qed.

(** X1.  Setting the byte length to the value just read changes no byte of
    memory, when the four bytes of the prefix are determinate. *)
Theorem set_current_byte_length_is_noop (m : memory) (h : addr) (v : Z) :
  byte_valued m (length_field h) sizeof_UINT ->
  GET_BSTR_BYTE_LEN m h = Some v ->
  forall x, SET_BSTR_BYTE_LEN m h v x = m x.
Proof.
  intros Hv Hg x. pose proof (load_UINT_range _ _ _ Hv Hg) as Hr.
  unfold GET_BSTR_BYTE_LEN, load_UINT in Hg. unfold SET_BSTR_BYTE_LEN, store_UINT.
  destruct (load_bytes m (length_field h) (Z.to_nat sizeof_UINT)) as [bs |] eqn:Hb;
    [| discriminate].
  injection Hg as <-. rewrite to_UINT_small by exact Hr.
  pose proof (load_bytes_is_byte (Z.to_nat sizeof_UINT) m _ bs Hv Hb) as Hf.
  rewrite <- (load_bytes_length _ _ _ _ Hb), (le_split_combine bs Hf).
  apply (store_loaded_bytes _ _ _ _ Hb).
Qed.

Lemma set_current_byte_length_is_noop_witness :
  SET_BSTR_BYTE_LEN (SET_BSTR_BYTE_LEN no_memory 4104 10) 4104 10 4101
  = SET_BSTR_BYTE_LEN no_memory 4104 10 4101.
Proof.
  apply (set_current_byte_length_is_noop (SET_BSTR_BYTE_LEN no_memory 4104 10) 4104 10).
  - intros x Hx. change (length_field 4104) with 4100 in Hx. unfold sizeof_UINT in Hx.
    assert (Hc : x = 4100 \/ x = 4101 \/ x = 4102 \/ x = 4103) by lia.
    destruct Hc as [-> | [-> | [-> | ->]]];
      eexists; (split; [vm_compute; reflexivity | lia]).
  - reflexivity.
Defined.

(** X2.  Reading the wide length and setting it back is not neutral: the
    byte length comes out rounded down to an even number, so an odd byte
    length loses its last byte. *)
Theorem wide_get_set_rounds_down (t : target) (m : memory) (h : addr) (v : Z) :
  byte_valued m (length_field h) sizeof_UINT ->
  GET_BSTR_BYTE_LEN m h = Some v ->
  exists L,
    GET_BSTR_LEN m h = Some L
    /\ L = v / sizeof_WCHAR
    /\ GET_BSTR_BYTE_LEN (SET_BSTR_LEN t m h L) h = Some (v - v mod sizeof_WCHAR).
Proof.
  intros Hv Hg. pose proof (load_UINT_range _ _ _ Hv Hg) as Hr.
  exists (v / sizeof_WCHAR).
  split; [apply GET_BSTR_LEN_of_byte_len; assumption |]. split; [reflexivity |].
  rewrite GET_BYTE_SET_BSTR_LEN. f_equal.
  rewrite to_UINT_small; unfold sizeof_WCHAR, UINT_MOD in *;
    change (2 ^ 32) with 4294967296 in *; Z.div_mod_to_equations; lia.
Qed.

Lemma wide_get_set_rounds_down_witness :
  exists L,
    GET_BSTR_LEN (SET_BSTR_BYTE_LEN no_memory 4104 5) 4104 = Some L
    /\ L = 5 / sizeof_WCHAR
    /\ GET_BSTR_BYTE_LEN
         (SET_BSTR_LEN Win64 (SET_BSTR_BYTE_LEN no_memory 4104 5) 4104 L) 4104
       = Some (5 - 5 mod sizeof_WCHAR).
Proof.
  apply (wide_get_set_rounds_down Win64 (SET_BSTR_BYTE_LEN no_memory 4104 5) 4104 5).
  - intros x Hx. change (length_field 4104) with 4100 in Hx. unfold sizeof_UINT in Hx.
    assert (Hc : x = 4100 \/ x = 4101 \/ x = 4102 \/ x = 4103) by lia.
    destruct Hc as [-> | [-> | [-> | ->]]];
      eexists; (split; [vm_compute; reflexivity | lia]).
  - reflexivity.
Defined.

(** X3.  Of two set-lengths on one handle, in either mode, the second
    decides every byte of memory: nothing of the first is left. *)
Theorem last_set_length_wins (t : target) (k1 k2 : mode) (m : memory) (h : addr)
        (L1 L2 : Z) (x : addr) :
  set_length t k2 (set_length t k1 m h L1) h L2 x = set_length t k2 m h L2 x.
Proof.
  destruct k1, k2; cbn [set_length];
    unfold SET_BSTR_LEN, SET_BSTR_BYTE_LEN, store_UINT;
    apply store_bytes_twice; rewrite !length_le_split; reflexivity.
Qed.

(** X4.  Whatever length is passed to a set-length, the prefix then holds
    that length's byte count modulo 2^32: the byte length read back is below
    2^32, the wide length read back is half of it and so below 2^31, and
    after [SET_BSTR_LEN] the byte length is even. *)
Theorem set_length_result_bounds (t : target) (k : mode) (m : memory) (h : addr) (L : Z) :
  exists b,
    GET_BSTR_BYTE_LEN (set_length t k m h L) h = Some b
    /\ b = (L * char_size k) mod 2 ^ 32
    /\ 0 <= b < 2 ^ 32
    /\ GET_BSTR_LEN (set_length t k m h L) h = Some (b / 2)
    /\ 0 <= b / 2 < 2 ^ 31
    /\ (k = Wide -> b mod 2 = 0).
Proof.
  exists (to_UINT (L * char_size k)).
  assert (Hb : GET_BSTR_BYTE_LEN (set_length t k m h L) h = Some (to_UINT (L * char_size k))).
  { destruct k; cbn [set_length char_size].
    - apply GET_BYTE_SET_BSTR_LEN.
    - rewrite Z.mul_1_r. apply GET_SET_BSTR_BYTE_LEN. }
  pose proof (to_UINT_range (L * char_size k)) as Hr.
  split; [exact Hb |]. split; [reflexivity |]. split; [exact Hr |].
  split; [apply (GET_BSTR_LEN_of_byte_len _ _ _ Hb Hr) |].
  split.
  - unfold UINT_MOD in Hr. change (2 ^ 32) with 4294967296 in Hr.
    change (2 ^ 31) with 2147483648. Z.div_mod_to_equations; lia.
  - intros ->. cbn [char_size]. unfold to_UINT, UINT_MOD, sizeof_WCHAR.
    rewrite Z.mod_mod_divide by (exists (2 ^ 31); reflexivity).
    apply Z.mod_mul. discriminate.
Qed.

Lemma store_char_outside (k : mode) (m : memory) (h : addr) (i v : Z) (x : addr) :
  x < h + char_size k * i \/ h + char_size k * (i + 1) <= x ->
  store_char k m h i v x = m x.
Proof.
  intros H. unfold store_char. apply store_bytes_outside.
  rewrite length_le_split, Z2Nat.id by apply sizeof_elt_nonneg. lia.
Qed.

(** X5.  A character written through the handle at an index inside the
    buffer changes neither length (the prefix lies below the handle) nor any
    byte outside the buffer. *)
Theorem buffer_write_keeps_length (t : target) (n : Z) (base : addr) (k k' : mode)
        (m : memory) (i v : Z) :
  0 <= i ->
  char_size k * (i + 1) <= capacity t n ->
  get_length k' (store_char k m (handle t base) i v) (handle t base)
  = get_length k' m (handle t base)
  /\ (forall x, x < handle t base \/ handle t base + capacity t n <= x ->
                store_char k m (handle t base) i v x = m x).
Proof.
  intros Hi Hc. pose proof (char_size_pos k) as Hk. split.
  - apply get_length_ext. intros x Hx. apply store_char_outside. nia.
  - intros x Hx. apply store_char_outside. nia.
Qed.

Lemma buffer_write_keeps_length_witness :
  GET_BSTR_BYTE_LEN
    (store_char Byte (SET_BSTR_BYTE_LEN no_memory (handle Win64 4096) 10)
       (handle Win64 4096) 5 0)
    (handle Win64 4096)
  = GET_BSTR_BYTE_LEN (SET_BSTR_BYTE_LEN no_memory (handle Win64 4096) 10)
      (handle Win64 4096).
Proof.
  refine (proj1 (buffer_write_keeps_length Win64 11 4096 Byte Byte
                   (SET_BSTR_BYTE_LEN no_memory (handle Win64 4096) 10) 5 0 _ _)).
  - lia.
  - vm_compute. discriminate.
Defined.

Lemma prefix_inside_container (t : target) (n : Z) (base : addr) (x : addr) :
  length_field (handle t base) <= x < handle t base ->
  inside (INTERNAL_BSTR_CONTAINER__ t n) base x.
Proof.
  intros Hx. unfold inside.
  pose proof (sizeof_container_covers t n). pose proof (capacity_nonneg t n).
  pose proof (sizeof_int3264_ge t). unfold length_field, handle, sizeof_UINT in *. lia.
Qed.

(** X6.  Two containers that do not overlap are independent: a set-length
    on the handle of one changes no byte of the other, and so neither its
    length in either mode. *)
Theorem set_length_leaves_other_container (t : target) (k k' : mode) (n1 n2 : Z)
        (base1 base2 : addr) (m : memory) (L : Z) :
  base1 + sizeof (INTERNAL_BSTR_CONTAINER__ t n1) <= base2
  \/ base2 + sizeof (INTERNAL_BSTR_CONTAINER__ t n2) <= base1 ->
  (forall x, inside (INTERNAL_BSTR_CONTAINER__ t n2) base2 x ->
             set_length t k m (handle t base1) L x = m x)
  /\ get_length k' (set_length t k m (handle t base1) L) (handle t base2)
     = get_length k' m (handle t base2).
Proof.
  intros Hd.
  assert (Hin : forall x, inside (INTERNAL_BSTR_CONTAINER__ t n2) base2 x ->
                          set_length t k m (handle t base1) L x = m x).
  { intros x Hx. apply set_length_outside. unfold inside in Hx.
    pose proof (sizeof_container_covers t n1). pose proof (capacity_nonneg t n1).
    pose proof (sizeof_int3264_ge t). unfold length_field, handle, sizeof_UINT in *. lia. }
  split; [exact Hin |].
  apply get_length_ext. intros x Hx. apply Hin.
  apply prefix_inside_container. exact Hx.
Qed.

Lemma set_length_leaves_other_container_witness :
  GET_BSTR_LEN (SET_BSTR_LEN Win64 (SET_BSTR_LEN Win64 no_memory (handle Win64 8192) 7)
                  (handle Win64 4096) 3)
    (handle Win64 8192)
  = GET_BSTR_LEN (SET_BSTR_LEN Win64 no_memory (handle Win64 8192) 7) (handle Win64 8192).
Proof.
  refine (proj2 (set_length_leaves_other_container Win64 Wide Wide 22 22 4096 8192
                   (SET_BSTR_LEN Win64 no_memory (handle Win64 8192) 7) 3 _)).
  left. vm_compute. discriminate.
Defined.

(** ** More on the size of the container *)

(** X7.  The capacity of a container that can be declared is the least
    multiple of the native word that is strictly greater than the byte count
    asked for: between one byte and one word are added, never none. *)
Theorem capacity_least_multiple (t : target) (bytecount_ : Z) :
  is_size t bytecount_ = true ->
  declarable t (INTERNAL_BSTR_CONTAINER__ t bytecount_) = true ->
  bytecount_ < capacity t bytecount_ <= bytecount_ + sizeof_int3264 t
  /\ capacity t bytecount_ mod sizeof_int3264 t = 0
  /\ (forall c, c mod sizeof_int3264 t = 0 -> bytecount_ < c -> capacity t bytecount_ <= c).
Proof.
  intros Hn Hd. pose proof (declarable_no_wrap t bytecount_ Hn Hd) as Hw.
  rewrite (capacity_eq t bytecount_ Hn Hw).
  pose proof (round_up_bounds t bytecount_) as [Hr Hm].
  split; [exact Hr |]. split; [exact Hm |].
  intros c Hc Hlt. revert Hr Hm Hc. generalize (round_up bytecount_ (sizeof_int3264 t)).
  intros r Hr Hm Hc. on_target t; Z.div_mod_to_equations; lia.
Qed.

Lemma capacity_least_multiple_witness :
  16 < capacity Win64 16 <= 16 + sizeof_int3264 Win64
  /\ capacity Win64 16 mod sizeof_int3264 Win64 = 0
  /\ (forall c, c mod sizeof_int3264 Win64 = 0 -> 16 < c -> capacity Win64 16 <= c).
Proof.
  apply (capacity_least_multiple Win64 16); reflexivity.
Defined.

(** X8.  A container that can be declared has no padding: it is one native
    word of prefix followed by the buffer, its size is the capacity plus one
    word, and that size is a multiple of its alignment. *)
Theorem container_has_no_padding (t : target) (bytecount_ : Z) :
  is_size t bytecount_ = true ->
  declarable t (INTERNAL_BSTR_CONTAINER__ t bytecount_) = true ->
  sizeof (INTERNAL_BSTR_CONTAINER__ t bytecount_)
  = sizeof (snd (INTERNAL_BSTR_CONTAINER_LENGTH_PREFIX__ t)) + capacity t bytecount_
  /\ sizeof (snd (INTERNAL_BSTR_CONTAINER_LENGTH_PREFIX__ t)) = sizeof_int3264 t
  /\ sizeof (INTERNAL_BSTR_CONTAINER__ t bytecount_)
     = sizeof_int3264 t + round_up bytecount_ (sizeof_int3264 t)
  /\ sizeof (INTERNAL_BSTR_CONTAINER__ t bytecount_)
     mod alignof (INTERNAL_BSTR_CONTAINER__ t bytecount_) = 0.
Proof.
  intros Hn Hd. pose proof (declarable_no_wrap t bytecount_ Hn Hd) as Hw.
  assert (Hp : sizeof (snd (INTERNAL_BSTR_CONTAINER_LENGTH_PREFIX__ t)) = sizeof_int3264 t)
    by (destruct t; reflexivity).
  rewrite Hp, alignof_container, (sizeof_container t bytecount_ Hn Hw),
    (capacity_eq t bytecount_ Hn Hw).
  pose proof (round_up_bounds t bytecount_) as [_ Hm].
  repeat split.
  revert Hm. generalize (round_up bytecount_ (sizeof_int3264 t)). intros r Hm.
  on_target t; Z.div_mod_to_equations; lia.
Qed.

Lemma container_has_no_padding_witness :
  sizeof (INTERNAL_BSTR_CONTAINER__ Win32 21)
  = sizeof (snd (INTERNAL_BSTR_CONTAINER_LENGTH_PREFIX__ Win32)) + capacity Win32 21
  /\ sizeof (snd (INTERNAL_BSTR_CONTAINER_LENGTH_PREFIX__ Win32)) = sizeof_int3264 Win32
  /\ sizeof (INTERNAL_BSTR_CONTAINER__ Win32 21)
     = sizeof_int3264 Win32 + round_up 21 (sizeof_int3264 Win32)
  /\ sizeof (INTERNAL_BSTR_CONTAINER__ Win32 21)
     mod alignof (INTERNAL_BSTR_CONTAINER__ Win32 21) = 0.
Proof.
  apply (container_has_no_padding Win32 21); reflexivity.
Defined.

(** X9.  The capacity grows with the byte count asked for, and byte counts
    in the same native word get the same capacity. *)
Theorem capacity_monotone (t : target) (n n' : Z) :
  is_size t n = true ->
  is_size t n' = true ->
  declarable t (INTERNAL_BSTR_CONTAINER__ t n) = true ->
  declarable t (INTERNAL_BSTR_CONTAINER__ t n') = true ->
  (n <= n' -> capacity t n <= capacity t n')
  /\ (n / sizeof_int3264 t = n' / sizeof_int3264 t -> capacity t n = capacity t n').
Proof.
  intros Hn Hn' Hd Hd'.
  rewrite (capacity_eq t n Hn (declarable_no_wrap t n Hn Hd)).
  rewrite (capacity_eq t n' Hn' (declarable_no_wrap t n' Hn' Hd')).
  rewrite !round_up_eq.
  split; intros H; on_target t; Z.div_mod_to_equations; lia.
Qed.

Lemma capacity_monotone_witness :
  (8 <= 15 -> capacity Win64 8 <= capacity Win64 15)
  /\ (8 / sizeof_int3264 Win64 = 15 / sizeof_int3264 Win64 ->
      capacity Win64 8 = capacity Win64 15).
Proof.
  apply (capacity_monotone Win64 8 15); reflexivity.
Defined.

(** X10.  [BSTR_CONTAINER] multiplies the count by [sizeof(WCHAR)] in
    [size_t] with no check.  For a count whose product passes [SIZE_MAX] the
    container is still declared, sized for the wrapped product: its buffer
    has at most that many bytes and one word, fewer than the wide characters
    asked for take. *)
Theorem wide_count_wrap_underallocates (t : target) (bufcount_ : Z) :
  is_size t bufcount_ = true ->
  SIZE_MOD t <= bufcount_ * sizeof_WCHAR ->
  declarable t (c_type (BSTR_CONTAINER t bufcount_)) = true ->
  requested_bytes t Wide bufcount_ = bufcount_ * sizeof_WCHAR - SIZE_MOD t
  /\ capacity t (requested_bytes t Wide bufcount_)
     <= bufcount_ * sizeof_WCHAR - SIZE_MOD t + sizeof_int3264 t
  /\ capacity t (requested_bytes t Wide bufcount_) < bufcount_ * sizeof_WCHAR.
Proof.
  intros Hn Hwrap Hd. apply is_size_spec in Hn.
  cbn [requested_bytes BSTR_CONTAINER c_type] in *.
  assert (Hr : size_mul t bufcount_ sizeof_WCHAR = bufcount_ * sizeof_WCHAR - SIZE_MOD t).
  { unfold size_mul, to_size. symmetry. apply (Z.mod_unique _ _ 1); on_target t; lia. }
  rewrite Hr in *.
  assert (Hs : is_size t (bufcount_ * sizeof_WCHAR - SIZE_MOD t) = true)
    by (apply is_size_spec; on_target t; lia).
  rewrite (capacity_eq t _ Hs (declarable_no_wrap t _ Hs Hd)).
  pose proof (round_up_bounds t (bufcount_ * sizeof_WCHAR - SIZE_MOD t)) as [Hb _].
  split; [reflexivity |]. split; [lia |]. on_target t; lia.
Qed.

Lemma wide_count_wrap_underallocates_witness :
  requested_bytes Win32 Wide 2147483659 = 2147483659 * sizeof_WCHAR - SIZE_MOD Win32
  /\ capacity Win32 (requested_bytes Win32 Wide 2147483659)
     <= 2147483659 * sizeof_WCHAR - SIZE_MOD Win32 + sizeof_int3264 Win32
  /\ capacity Win32 (requested_bytes Win32 Wide 2147483659) < 2147483659 * sizeof_WCHAR.
Proof.
  apply (wide_count_wrap_underallocates Win32 2147483659).
  - reflexivity.
  - vm_compute. discriminate.
  - reflexivity.
Defined.

(** ** More on construction *)

(** The memory an initializing macro leaves, written out. *)
Lemma define_initialized_eq (t : target) (k : mode) (count_ : Z) (va : list Z)
      (sd : storage) (base : addr) (m : memory) :
  initializer_fits (initialized_container t k count_ va) = true ->
  define_object sd (initialized_container t k count_ va) base m
  = Some (store_elems (char_size k)
            (store_UINT
               (fill m base (sizeof (INTERNAL_BSTR_CONTAINER__ t (requested_bytes t k count_)))
                  (Some 0))
               (length_field (handle t base)) (stored_length t k count_))
            (handle t base) va).
Proof.
  intros Hfit. unfold stored_length.
  destruct k; unfold initializer_fits in Hfit;
    cbn [initialized_container INITIALIZED_BSTR_CONTAINER INITIALIZED_BSTR_BYTE_CONTAINER
         BSTR_CONTAINER BSTR_BYTE_CONTAINER c_type c_init init_member init_elems] in Hfit;
    unfold define_object;
    cbn [initialized_container INITIALIZED_BSTR_CONTAINER INITIALIZED_BSTR_BYTE_CONTAINER
         BSTR_CONTAINER BSTR_BYTE_CONTAINER c_type c_init requested_bytes char_size].
  - rewrite offset_bstr in Hfit. unfold bstr_array in Hfit. apply Z.leb_le in Hfit.
    exact (initialize_container t (size_mul t count_ sizeof_WCHAR)
             {| init_length := size_mul t (size_sub t count_ 1) sizeof_WCHAR;
                init_member := "bstr"; init_elems := va |}
             T_WCHAR _ base m (offset_bstr _ _) Hfit).
  - rewrite offset_bytestr in Hfit. unfold bytestr_array in Hfit. apply Z.leb_le in Hfit.
    exact (initialize_container t count_
             {| init_length := size_sub t count_ 1;
                init_member := "bytestr"; init_elems := va |}
             T_char _ base m (offset_bytestr _ _) Hfit).
Qed.

(** An initializer that fits ends inside the buffer. *)
Lemma initializer_within_capacity (t : target) (k : mode) (count_ : Z) (va : list Z) :
  initializer_fits (initialized_container t k count_ va) = true ->
  char_size k * Z.of_nat (List.length va) <= capacity t (requested_bytes t k count_).
Proof.
  intros Hfit. unfold initializer_fits in Hfit.
  rewrite capacity_unfold, sizeof_bstr_array, sizeof_bytestr_array.
  set (n := requested_bytes t k count_).
  assert (Hge : Z.max (bstr_count t n * sizeof_WCHAR) (Z.max (bytestr_count t n) 0)
                <= align_up (Z.max (bstr_count t n * sizeof_WCHAR)
                               (Z.max (bytestr_count t n) 0)) 2)
    by (apply align_up_ge; lia).
  destruct k;
    cbn [initialized_container INITIALIZED_BSTR_CONTAINER INITIALIZED_BSTR_BYTE_CONTAINER
         BSTR_CONTAINER BSTR_BYTE_CONTAINER c_type c_init init_member init_elems
         char_size] in *.
  - rewrite offset_bstr in Hfit. unfold bstr_array in Hfit. apply Z.leb_le in Hfit.
    subst n. cbn [requested_bytes] in *. unfold sizeof_WCHAR in *. lia.
  - rewrite offset_bytestr in Hfit. unfold bytestr_array in Hfit. apply Z.leb_le in Hfit.
    subst n. cbn [requested_bytes] in *. lia.
Qed.

Lemma load_char_store_elems (k : mode) (va : list Z) (m : memory) (h : addr) (i : nat) :
  (i < List.length va)%nat ->
  load_char k (store_elems (char_size k) m h va) h (Z.of_nat i)
  = Some (nth i va 0 mod CHAR_MOD k).
Proof.
  intros Hi. unfold load_char.
  rewrite (load_store_elems (char_size k) va (char_size_pos k) m h i Hi).
  cbn [option_map]. rewrite le_combine_split, <- CHAR_MOD_eq. reflexivity.
Qed.

(** X11.  The elements of the initializer are in the buffer in their order:
    the character with index [i] behind the handle is the element with index
    [i], reduced to the width of a character (itself, when it is a character
    value).  This holds for the byte macros too, whose handle is taken from
    the member [bstr] while the initializer goes to [bytestr]. *)
Theorem initializer_content (t : target) (k : mode) (sd : storage) (count_ : Z)
        (va : list Z) (base : addr) (m : memory) (i : nat) :
  initializer_fits (initialized_container t k count_ va) = true ->
  (i < List.length va)%nat ->
  exists m' h,
    define_object sd (initialized_container t k count_ va) base m = Some m'
    /\ member_address (initialized_container t k count_ va) base "bstr" = Some h
    /\ load_char k m' h (Z.of_nat i) = Some (nth i va 0 mod CHAR_MOD k)
    /\ (0 <= nth i va 0 < CHAR_MOD k -> load_char k m' h (Z.of_nat i) = Some (nth i va 0)).
Proof.
  intros Hfit Hi. eexists. exists (handle t base).
  split; [apply define_initialized_eq; exact Hfit |].
  split; [apply initialized_handle |].
  split; [apply load_char_store_elems; exact Hi |].
  intros Hr. rewrite load_char_store_elems by exact Hi.
  rewrite Z.mod_small by exact Hr. reflexivity.
Qed.

Lemma initializer_content_witness :
  exists m' h,
    define_object Static (INITIALIZED_BSTR_BYTE_CONTAINER Win64 11 digits) 4096 no_memory
    = Some m'
    /\ member_address (INITIALIZED_BSTR_BYTE_CONTAINER Win64 11 digits) 4096 "bstr" = Some h
    /\ load_char Byte m' h 9 = Some 48.
Proof.
  destruct (initializer_content Win64 Byte Static 11 digits 4096 no_memory 9)
    as (m' & h & Hd & Hh & Hl & _).
  - reflexivity.
  - cbn. lia.
  - exists m', h. repeat split; [exact Hd | exact Hh | exact Hl].
Defined.

Lemma initializer_fits_eq (t : target) (k : mode) (count_ : Z) (va : list Z) :
  initializer_fits (initialized_container t k count_ va)
  = (Z.of_nat (List.length va)
     <=? match k with
         | Wide => bstr_count t (requested_bytes t k count_)
         | Byte => bytestr_count t (requested_bytes t k count_)
         end).
Proof.
  unfold initializer_fits.
  destruct k;
    cbn [initialized_container INITIALIZED_BSTR_CONTAINER INITIALIZED_BSTR_BYTE_CONTAINER
         BSTR_CONTAINER BSTR_BYTE_CONTAINER c_type c_init init_member init_elems
         requested_bytes].
  - rewrite offset_bstr. reflexivity.
  - rewrite offset_bytestr. reflexivity.
Qed.

Lemma load_char_zero (k : mode) (m : memory) (h : addr) (i : Z) :
  (forall x, h + char_size k * i <= x < h + char_size k * (i + 1) -> m x = Some 0) ->
  load_char k m h i = Some 0.
Proof.
  intros H. unfold load_char. apply load_bytes_zero. intros x Hx. apply H.
  rewrite Z2Nat.id in Hx by apply sizeof_elt_nonneg. lia.
Qed.

Lemma load_char_ext (k : mode) (m m' : memory) (h : addr) (i : Z) :
  (forall x, h + char_size k * i <= x < h + char_size k * (i + 1) -> m x = m' x) ->
  load_char k m h i = load_char k m' h i.
Proof.
  intros H. unfold load_char. f_equal. apply load_bytes_ext. intros x Hx. apply H.
  rewrite Z2Nat.id in Hx by apply sizeof_elt_nonneg. lia.
Qed.

(** X12.  The buffer has room for a terminator whatever the initializer:
    even when the initializer has as many elements as the declared count,
    with no terminator of its own, the character after its last element lies
    inside the buffer and is zero. *)
Theorem terminator_after_initializer (t : target) (k : mode) (sd : storage) (count_ : Z)
        (va : list Z) (base : addr) (m : memory) :
  is_size t count_ = true ->
  count_ * char_size k < SIZE_MOD t ->
  declarable t (c_type (initialized_container t k count_ va)) = true ->
  Z.of_nat (List.length va) <= count_ ->
  exists m' h,
    define_object sd (initialized_container t k count_ va) base m = Some m'
    /\ member_address (initialized_container t k count_ va) base "bstr" = Some h
    /\ char_size k * (Z.of_nat (List.length va) + 1)
       <= capacity t (requested_bytes t k count_)
    /\ load_char k m' h (Z.of_nat (List.length va)) = Some 0.
Proof.
  intros Hn Hnw Hd Hlen. rewrite initialized_type in Hd.
  apply is_size_spec in Hn.
  assert (Hreq : requested_bytes t k count_ = count_ * char_size k).
  { destruct k; cbn [requested_bytes char_size] in *; [| lia].
    unfold size_mul. apply to_size_small. unfold sizeof_WCHAR in *. lia. }
  assert (Hs : is_size t (requested_bytes t k count_) = true).
  { apply is_size_spec. rewrite Hreq. pose proof (char_size_pos k). nia. }
  pose proof (declarable_no_wrap t _ Hs Hd) as Hw.
  pose proof (capacity_eq t _ Hs Hw) as Hcap.
  pose proof (round_up_bounds t (requested_bytes t k count_)) as [Hb Hm].
  assert (Hroom : char_size k * (Z.of_nat (List.length va) + 1)
                  <= capacity t (requested_bytes t k count_)).
  { rewrite Hcap. rewrite Hreq in *.
    revert Hb Hm. generalize (round_up (count_ * char_size k) (sizeof_int3264 t)).
    intros r Hb Hm. destruct k; cbn [char_size] in *;
      on_target t; Z.div_mod_to_equations; lia. }
  assert (Hfit : initializer_fits (initialized_container t k count_ va) = true).
  { rewrite initializer_fits_eq. apply Z.leb_le.
    pose proof (bstr_count_no_wrap t _ Hs) as H1.
    pose proof (bytestr_count_no_wrap t _ Hs Hw) as H2.
    rewrite <- Hcap in H1, H2.
    destruct k; cbn [char_size] in *; unfold sizeof_WCHAR in *; lia. }
  destruct (define_initialized t k count_ va sd base m Hfit) as (m' & Hdef & _ & Hz & _).
  exists m', (handle t base).
  split; [exact Hdef |]. split; [apply initialized_handle |]. split; [exact Hroom |].
  apply load_char_zero. intros x Hx. apply Hz. lia.
Qed.

Lemma terminator_after_initializer_witness :
  exists m' h,
    define_object Automatic (INITIALIZED_BSTR_CONTAINER Win32 10 digits) 4096 no_memory
    = Some m'
    /\ member_address (INITIALIZED_BSTR_CONTAINER Win32 10 digits) 4096 "bstr" = Some h
    /\ load_char Wide m' h 10 = Some 0.
Proof.
  destruct (terminator_after_initializer Win32 Wide Automatic 10 digits 4096 no_memory)
    as (m' & h & Hd & Hh & _ & Hl).
  - reflexivity.
  - vm_compute. reflexivity.
  - reflexivity.
  - cbn. lia.
  - exists m', h. repeat split; [exact Hd | exact Hh | exact Hl].
Defined.

(** X13.  An initializing macro writes its own container and nothing else,
    and it writes all of it: every byte outside the object is as before,
    every byte inside is determinate and does not depend on what the memory
    held before. *)
Theorem construction_writes_container_only (t : target) (k : mode) (sd : storage)
        (count_ : Z) (va : list Z) (base : addr) (m : memory) :
  initializer_fits (initialized_container t k count_ va) = true ->
  exists m',
    define_object sd (initialized_container t k count_ va) base m = Some m'
    /\ (forall x, ~ inside (c_type (initialized_container t k count_ va)) base x ->
                  m' x = m x)
    /\ (forall x, inside (c_type (initialized_container t k count_ va)) base x ->
                  is_byte (m' x))
    /\ (forall m2, exists m2',
          define_object sd (initialized_container t k count_ va) base m2 = Some m2'
          /\ forall x, inside (c_type (initialized_container t k count_ va)) base x ->
                       m2' x = m' x).
Proof.
  intros Hfit. rewrite initialized_type. unfold inside.
  set (n := requested_bytes t k count_).
  pose proof (initializer_within_capacity t k count_ va Hfit) as Hin. fold n in Hin.
  pose proof (sizeof_container_covers t n) as Hc.
  pose proof (sizeof_int3264_ge t) as Hw. unfold sizeof_UINT in Hw.
  pose proof (sizeof_elt_nonneg k) as Hk.
  eexists. split; [apply define_initialized_eq; exact Hfit |]. fold n.
  split; [| split].
  - intros x Hx.
    rewrite store_elems_outside by (try exact Hk; unfold handle; lia).
    rewrite store_UINT_outside by (unfold length_field, handle, sizeof_UINT; lia).
    apply fill_outside. lia.
  - intros x Hx. apply store_elems_is_byte.
    apply store_bytes_is_byte; [apply le_split_bytes |].
    rewrite fill_inside by exact Hx. exists 0. split; [reflexivity | lia].
  - intros m2. eexists. split; [apply define_initialized_eq; exact Hfit |]. fold n.
    intros x Hx. apply store_elems_agree. apply store_bytes_agree.
    rewrite !fill_inside by exact Hx. reflexivity.
Qed.

Lemma construction_writes_container_only_witness :
  exists m',
    define_object Automatic (INITIALIZED_BSTR_CONTAINER Win64 11 digits) 4096
      (SET_BSTR_LEN Win64 no_memory 8200 7) = Some m'
    /\ GET_BSTR_LEN m' 8200 = Some 7.
Proof.
  destruct (construction_writes_container_only Win64 Wide Automatic 11 digits 4096
              (SET_BSTR_LEN Win64 no_memory 8200 7))
    as (m' & Hd & Hout & _).
  - reflexivity.
  - exists m'. split; [exact Hd |].
    transitivity (get_length Wide (SET_BSTR_LEN Win64 no_memory 8200 7) 8200);
      [| reflexivity].
    apply (get_length_ext Wide m' (SET_BSTR_LEN Win64 no_memory 8200 7) 8200).
    intros x Hx. apply Hout. unfold inside.
    change (sizeof (c_type (initialized_container Win64 Wide 11 digits))) with 32.
    change (length_field 8200) with 8196 in Hx. lia.
Defined.

(** X14.  An uninitialized container with automatic storage has no length
    to read: prefix and buffer are indeterminate.  A set-length gives it the
    length set (when its byte count fits the prefix) and leaves the buffer
    indeterminate. *)
Theorem automatic_uninitialized_is_indeterminate (t : target) (k k' : mode) (count_ : Z)
        (base : addr) (m : memory) :
  exists m' h,
    define_object Automatic (uninitialized_container t k count_) base m = Some m'
    /\ member_address (uninitialized_container t k count_) base "bstr" = Some h
    /\ get_length k' m' h = None
    /\ (forall x, base <= x < h + capacity t (requested_bytes t k count_) -> m' x = None)
    /\ (forall L, 0 <= L -> L * char_size k' < UINT_MOD ->
          get_length k' (set_length t k' m' h L) h = Some L
          /\ forall x, h <= x < h + capacity t (requested_bytes t k count_) ->
                       set_length t k' m' h L x = None).
Proof.
  set (n := requested_bytes t k count_).
  pose proof (sizeof_container_covers t n) as Hc.
  pose proof (capacity_nonneg t n) as Hcap.
  pose proof (sizeof_int3264_ge t) as Hw. unfold sizeof_UINT in Hw.
  exists (fill m base (sizeof (INTERNAL_BSTR_CONTAINER__ t n)) None), (handle t base).
  assert (Hnone : forall x, base <= x < handle t base + capacity t n ->
                            fill m base (sizeof (INTERNAL_BSTR_CONTAINER__ t n)) None x
                            = None).
  { intros x Hx. apply fill_inside. unfold handle in Hx. lia. }
  split; [unfold define_object; destruct k; reflexivity |].
  split; [apply uninitialized_handle |].
  split.
  { assert (Hl : load_UINT (fill m base (sizeof (INTERNAL_BSTR_CONTAINER__ t n)) None)
                   (length_field (handle t base)) = None).
    { unfold load_UINT. change (Z.to_nat sizeof_UINT) with 4%nat.
      rewrite load_bytes_none; [reflexivity |].
      apply Hnone. unfold length_field, handle, sizeof_UINT. lia. }
    destruct k'; cbn [get_length]; unfold GET_BSTR_LEN, GET_BSTR_BYTE_LEN;
      rewrite Hl; reflexivity. }
  split; [exact Hnone |].
  intros L H0 H1. split; [apply get_set_length; assumption |].
  intros x Hx. rewrite set_length_outside by lia. apply Hnone. unfold handle in *. lia.
Qed.




Lemma automatic_uninitialized_is_indeterminate_witness :
  exists m' h,
    define_object Automatic (BSTR_CONTAINER Win64 39) 4096 no_memory = Some m'
    /\ member_address (BSTR_CONTAINER Win64 39) 4096 "bstr" = Some h
    /\ GET_BSTR_LEN m' h = None
    /\ GET_BSTR_LEN (SET_BSTR_LEN Win64 m' h 38) h = Some 38.
Proof.
  destruct (automatic_uninitialized_is_indeterminate Win64 Wide Wide 39 4096 no_memory)
    as (m' & h & Hd & Hh & Hg & _ & Hs).
  exists m', h. repeat split; [exact Hd | exact Hh | exact Hg |].
  apply (proj1 (Hs 38 ltac:(lia) ltac:(vm_compute; reflexivity))).
Defined.

Lemma get_byte_set_length (t : target) (k : mode) (m : memory) (h : addr) (L : Z) :
  GET_BSTR_BYTE_LEN (set_length t k m h L) h = Some (to_UINT (L * char_size k)).
Proof.
  destruct k; cbn [set_length char_size].
  - apply GET_BYTE_SET_BSTR_LEN.
  - rewrite Z.mul_1_r. apply GET_SET_BSTR_BYTE_LEN.
Qed.

(** X16.  A static uninitialized container needs no terminator from the
    caller: after program startup, [n] characters written from the front of
    the buffer that leave room for one more, followed by a set-length of
    [n], give a string with those characters and a zero character after the
    last.  Its byte length is [n] times the character size modulo 2^32, so
    get-length returns [n] when that product is below 2^32. *)
Theorem filled_static_container_is_terminated (t : target) (k : mode) (count_ : Z)
        (site : addr) (m : memory) (chars : list Z) :
  char_size k * (Z.of_nat (List.length chars) + 1)
  <= capacity t (requested_bytes t k count_) ->
  exists m0 h,
    startup (uninitialized_container t k count_) site m = Some m0
    /\ member_address (uninitialized_container t k count_) site "bstr" = Some h
    /\ let m1 := set_length t k (store_elems (char_size k) m0 h chars) h
                   (Z.of_nat (List.length chars)) in
       (forall i, (i < List.length chars)%nat ->
          load_char k m1 h (Z.of_nat i) = Some (nth i chars 0 mod CHAR_MOD k))
       /\ load_char k m1 h (Z.of_nat (List.length chars)) = Some 0
       /\ GET_BSTR_BYTE_LEN m1 h
          = Some (to_UINT (Z.of_nat (List.length chars) * char_size k))
       /\ (Z.of_nat (List.length chars) * char_size k < UINT_MOD ->
           get_length k m1 h = Some (Z.of_nat (List.length chars))).
Proof.
  intros Hroom.
  destruct (define_static_uninitialized t k count_ site m) as (m0 & Hs & Hz).
  pose proof (char_size_pos k) as Hk.
  pose proof (sizeof_int3264_ge t) as Hw. unfold sizeof_UINT in Hw.
  exists m0, (handle t site).
  split; [exact Hs |]. split; [apply uninitialized_handle |].
  cbv zeta. split; [| split; [| split]].
  - intros i Hi.
    rewrite (load_char_ext k _ (store_elems (char_size k) m0 (handle t site) chars)).
    + apply load_char_store_elems. exact Hi.
    + intros x Hx. apply set_length_outside. right. nia.
  - apply load_char_zero. intros x Hx.
    rewrite set_length_outside by (right; nia).
    rewrite store_elems_outside by lia.
    apply Hz. unfold handle in *. nia.
  - apply get_byte_set_length.
  - intros Hfit. apply get_set_length; lia.
Qed.

Lemma filled_static_container_is_terminated_witness :
  exists m0 h,
    startup (BSTR_CONTAINER Win64 39) 4096 no_memory = Some m0
    /\ member_address (BSTR_CONTAINER Win64 39) 4096 "bstr" = Some h
    /\ let m1 := SET_BSTR_LEN Win64 (store_elems sizeof_WCHAR m0 h [123; 88; 125]) h 3 in
       GET_BSTR_LEN m1 h = Some 3
       /\ load_char Wide m1 h 3 = Some 0.
Proof.
  destruct (filled_static_container_is_terminated Win64 Wide 39 4096 no_memory
              [123; 88; 125])
    as (m0 & h & Hs & Hh & _ & Hz & _ & Hg).
  - vm_compute. discriminate.
  - exists m0, h.
    repeat split; [exact Hs | exact Hh | apply Hg; vm_compute; reflexivity | exact Hz].
Defined.
